(** * The Proof-of-Work sync driver ([silkworm::chainsync::PoWSync])

    A shallow embedding of [sync_pow.cpp]: [resume],
    [forward_and_insert_blocks], [unwind], [execution_loop],
    [update_bad_headers] and the two announcement emitters.

    The driver talks to three collaborators whose code lives elsewhere: the
    execution engine ([execution::Client]), the block exchange
    ([BlockExchange]) and the fork-choice view ([ChainForkView]).  They are
    interfaces here (type classes); every theorem of the driver holds for
    any implementation of them.  A run of the driver is observed through the
    sequence of calls it makes on the engine and on the exchange. *)

From Stdlib Require Import NArith List Bool String Lia.
From stdpp Require Import base gmap.
Import ListNotations.

Local Open Scope N_scope.

(** ** Data model *)

(** [BlockNum] is [uint64_t]; the driver only compares block numbers and
    takes their maximum, so no wrap-around arises.  [Hash] is a 32-byte
    digest, read as a number.  [TotalDifficulty] is a 256-bit unsigned. *)
Definition BlockNum := N.
Definition Hash := N.
Definition TotalDifficulty := N.

Module BlockId.
Record t := mk { number : BlockNum; hash : Hash }.
End BlockId.

(** [using NewHeight = BlockId; using UnwindPoint = BlockId;] *)
Definition NewHeight := BlockId.t.
Definition UnwindPoint := BlockId.t.

(** [inline BlockNum height(const BlockId& b)] *)
Definition height (b : BlockId.t) : BlockNum := BlockId.number b.

Module ChainHead.
Record t := mk { height : BlockNum; hash : Hash; total_difficulty : TotalDifficulty }.
End ChainHead.

(** Modelled from the spec: [to_BlockId] (declared with [ChainHead], absent
    from the sources at hand) keeps the height and the hash of a head. *)
Definition to_BlockId (h : ChainHead.t) : BlockId.t :=
  BlockId.mk (ChainHead.height h) (ChainHead.hash h).

(** Modelled from the spec: [BlockHeader] exposes its parent linkage, its
    number and its declared difficulty; [extra] stands for the remainder the
    driver does not interpret. *)
Module BlockHeader.
Record t := mk { parent_hash : Hash; number : BlockNum; difficulty : N; extra : N }.
End BlockHeader.

(** A plain [Block]: a header and a body payload. *)
Module Block.
Record t := mk { header : BlockHeader.t; body : N }.
End Block.

(** [BlockEx]: a block object as the exchange hands it over, with the two
    fields the driver sees: [td] and [to_announce].  The driver and the
    exchange hold such an object through a [std::shared_ptr<BlockEx>];
    [addr] is the address the pointer holds, the identity of the object: two
    entries with the same [addr] are one object. *)
Module BlockEx.
Record t := mk { header : BlockHeader.t; body : N; td : TotalDifficulty; to_announce : bool;
                 addr : N }.
Definition set_td (b : t) (v : TotalDifficulty) : t :=
  mk (header b) (body b) v (to_announce b) (addr b).
End BlockEx.

(** [using Blocks = std::vector<std::shared_ptr<BlockEx>>]: the list of the
    pointers, each given with the object it points to.  The same pointer may
    occur more than once; what the driver writes through one occurrence
    ([block->td]) is then seen through every other one, see [apply_block]
    and [load]. *)
Abbreviation Blocks := (list BlockEx.t).

Definition to_plain_block (b : BlockEx.t) : Block.t :=
  Block.mk (BlockEx.header b) (BlockEx.body b).

Definition to_plain_blocks (bs : Blocks) : list Block.t := map to_plain_block bs.

(** [execution::ValidationResult]: the verdict of [validate_chain].  The
    driver names three alternatives and has a last [else] for anything
    else; [UnknownVerdict] stands for that. *)
Inductive ValidationResult :=
| ValidChain (current_head : Hash)
| InvalidChain (latest_valid_head : Hash) (bad_block : option Hash) (bad_headers : gset Hash)
| ValidationError (latest_valid_head : Hash) (missing_block : Hash)
| UnknownVerdict.

Inductive Target_Tracking := kByAnnouncements | kByNewPeers.

(** Messages the driver hands to [BlockExchange::accept].  An
    [OutboundNewBlock] holds the pointers of the blocks to announce; it is
    given here with the objects as they are when the message is handed
    over. *)
Inductive Message :=
| OutboundNewBlock (blocks : Blocks) (is_first_sync : bool)
| OutboundNewBlockHashes (is_first_sync : bool)
| InternalMessage_add_bad_headers (bads : gset Hash).

(** The calls the driver makes, in the order it makes them.  [EvUnwind]
    records the call of the driver's own [unwind] hook. *)
Inductive Event :=
| EvLastForkChoice
| EvBlockProgress
| EvGetLastHeaders (n : N)
| EvInsertBlocks (blocks : list Block.t)
| EvValidateChain (h : Hash)
| EvUpdateForkChoice (h : Hash)
| EvGetBlockNum (h : Hash)
| EvInitialState (last_headers : list BlockHeader.t)
| EvDownloadBlocks (from : BlockNum) (tracking : Target_Tracking)
| EvTimedWaitAndPop (ms : N)
| EvStopDownloading
| EvAccept (m : Message)
| EvUnwind (p : UnwindPoint) (bad_block : option Hash).

(** [std::logic_error] with its [what()] string. *)
Inductive logic_error := LogicError (what : string).

(** ** The collaborators

    [W] is the state of everything outside the driver (engine, exchange,
    the threads that feed the queue or ask the driver to stop).  A call
    returns its answer and the state the outside is in afterwards. *)

Class ExecutionClient (W : Type) := {
  (** the head is a [BlockId]: [resume] takes its [height] and returns it
      as the [NewHeight] without conversion *)
  last_fork_choice : W -> BlockId.t * W;
  block_progress : W -> BlockNum * W;
  get_last_headers : N -> W -> list BlockHeader.t * W;
  insert_blocks : list Block.t -> W -> W;
  validate_chain : Hash -> W -> ValidationResult * W;
  update_fork_choice : Hash -> W -> W;
  get_block_num : Hash -> W -> option BlockNum * W
}.

Class BlockExchange (W : Type) := {
  initial_state : list BlockHeader.t -> W -> W;
  download_blocks : BlockNum -> Target_Tracking -> W -> W;
  (** [result_queue().timed_wait_and_pop(blocks, timeout)]: [None] when no
      batch came within the timeout *)
  timed_wait_and_pop : N -> W -> option Blocks * W;
  (** [in_sync] and [current_height] read the state of the exchange *)
  in_sync : W -> bool;
  current_height : W -> BlockNum;
  stop_downloading : W -> W;
  accept : Message -> W -> W
}.

(** [ActiveComponent::is_stopping()] reads the stop flag, which another
    thread raises. *)
Class ActiveComponent (W : Type) := {
  is_stopping : W -> bool
}.

Class ChainForkView (V : Type) := {
  (** [ChainForkView(ChainHead)] *)
  new_view : ChainHead.t -> V;
  reset_head : BlockId.t -> V -> V;
  add : BlockHeader.t -> V -> TotalDifficulty * V;
  head : V -> ChainHead.t;
  head_height : V -> BlockNum;
  head_hash : V -> Hash
}.

(** ** The driver's monad

    A computation of the driver runs from a configuration (the driver's
    members, the outside, the calls made so far) and ends by returning, by
    throwing a [std::logic_error], or by running out of fuel inside a
    [while] loop.  The configuration reached is kept in all three cases. *)

Inductive Outcome (A : Type) :=
| Ret (a : A)
| Throw (e : logic_error)
| OutOfFuel.
Arguments Ret {A} a.
Arguments Throw {A} e.
Arguments OutOfFuel {A}.

Section Driver.
Context {W V : Type}.
Context {EE : ExecutionClient W} {BE : BlockExchange W} {AC : ActiveComponent W}.
Context {CFV : ChainForkView V}.
(** [to_hex] of a hash, used in a diagnostic only *)
Variable to_hex : Hash -> string.

(** The members of [PoWSync] that are not references to a collaborator. *)
Record PoWSync := mkPoWSync {
  chain_fork_view_ : V;
  is_first_sync_ : bool
}.

Record Config := mkConfig {
  self : PoWSync;
  world : W;
  trace : list Event
}.

Definition M (A : Type) : Type := Config -> Outcome A * Config.

Definition ret {A} (a : A) : M A := fun c => (Ret a, c).

Definition bind {A B} (m : M A) (k : A -> M B) : M B :=
  fun c =>
    match m c with
    | (Ret a, c') => k a c'
    | (Throw e, c') => (Throw e, c')
    | (OutOfFuel, c') => (OutOfFuel, c')
    end.

Definition throw {A} (e : logic_error) : M A := fun c => (Throw e, c).

Definition out_of_fuel {A} : M A := fun c => (OutOfFuel, c).

(** a request to a collaborator: the call is recorded, the answer returned *)
Definition request {A} (ev : Event) (f : W -> A * W) : M A :=
  fun c =>
    let (a, w') := f (world c) in
    (Ret a, mkConfig (self c) w' (trace c ++ [ev])).

(** a call that returns nothing *)
Definition command (ev : Event) (f : W -> W) : M unit :=
  fun c => (Ret tt, mkConfig (self c) (f (world c)) (trace c ++ [ev])).

(** the driver's own hook is recorded without touching the outside *)
Definition record_call (ev : Event) : M unit :=
  fun c => (Ret tt, mkConfig (self c) (world c) (trace c ++ [ev])).

(** reading a flag or a counter of a collaborator *)
Definition observe {A} (f : W -> A) : M A := fun c => (Ret (f (world c)), c).

Definition get_self : M PoWSync := fun c => (Ret (self c), c).

Definition put_self (s : PoWSync) : M unit :=
  fun c => (Ret tt, mkConfig s (world c) (trace c)).

Definition put_view (v : V) : M unit :=
  bind get_self (fun s => put_self (mkPoWSync v (is_first_sync_ s))).

Definition put_is_first_sync (b : bool) : M unit :=
  bind get_self (fun s => put_self (mkPoWSync (chain_fork_view_ s) b)).

Notation "x <- c ;; k" := (bind c (fun x => k))
  (at level 100, c at next level, right associativity).
Notation "c ;;; k" := (bind c (fun _ => k))
  (at level 100, right associativity).

(** ** The driver *)

Definition ensure_invariant (condition : bool) (message : string) : M unit :=
  if negb condition
  then throw (LogicError ("Consensus invariant violation: " ++ message))
  else ret tt.

(** the [for_each] of [resume]: [chain_fork_view_.add(header)], the
    returned difficulty dropped *)
Definition add_headers (hs : list BlockHeader.t) (v : V) : V :=
  fold_left (fun v h => snd (add h v)) hs v.

Definition resume : M NewHeight :=
  head_ <- request EvLastForkChoice last_fork_choice ;;
  block_progress_ <- request EvBlockProgress block_progress ;;
  s <- get_self ;;
  put_view (reset_head head_ (chain_fork_view_ s)) ;;;
  ensure_invariant (height head_ <=? block_progress_)
    "canonical head beyond block progress" ;;;
  if block_progress_ =? height head_ then ret head_
  else
    prev_headers <- request (EvGetLastHeaders 128) (get_last_headers 128) ;;
    s <- get_self ;;
    put_view (add_headers prev_headers (chain_fork_view_ s)) ;;;
    s <- get_self ;;
    ret (to_BlockId (head (chain_fork_view_ s))).

(** New block hash announcements propagation *)
Definition send_new_block_hash_announcements : M unit :=
  s <- get_self ;;
  let message := OutboundNewBlockHashes (is_first_sync_ s) in
  command (EvAccept message) (accept message).

(** New block announcements propagation *)
Definition send_new_block_announcements (blocks : Blocks) : M unit :=
  match blocks with
  | [] => ret tt
  | _ :: _ =>
      s <- get_self ;;
      let message := OutboundNewBlock blocks (is_first_sync_ s) in
      command (EvAccept message) (accept message)
  end.

Definition update_bad_headers (bad_headers : gset Hash) : M Message :=
  let message := InternalMessage_add_bad_headers bad_headers in
  command (EvAccept message) (accept message) ;;;
  ret message.

(** [void PoWSync::unwind(UnwindPoint, std::optional<Hash>)]: does nothing *)
Definition unwind (p : UnwindPoint) (bad_block : option Hash) : M unit :=
  record_call (EvUnwind p bad_block).

(** The state of the [for_each] over a batch: the view, the local
    [block_progress], the [td] written so far to the block objects, by
    address, and the pointers pushed onto [announcements_to_do]. *)
Record BatchState := mkBatch {
  b_view : V;
  b_progress : BlockNum;
  b_tds : gmap N TotalDifficulty;
  b_announce : Blocks
}.

(** one turn of the [for_each] lambda: [block->td = ...] writes to the
    object at the address of [block], whichever pointers lead to it *)
Definition apply_block (st : BatchState) (block : BlockEx.t) : BatchState :=
  let (td, v') := add (BlockEx.header block) (b_view st) in
  mkBatch v'
          (N.max (b_progress st) (BlockHeader.number (BlockEx.header block)))
          (<[BlockEx.addr block := td]> (b_tds st))
          (if BlockEx.to_announce block then b_announce st ++ [block] else b_announce st).

Definition apply_blocks (v : V) (block_progress_ : BlockNum) (blocks : Blocks) : BatchState :=
  fold_left apply_block blocks (mkBatch v block_progress_ ∅ []).

(** the object behind a pointer once the writes [tds] are done *)
Definition load (tds : gmap N TotalDifficulty) (block : BlockEx.t) : BlockEx.t :=
  match tds !! BlockEx.addr block with
  | Some td => BlockEx.set_td block td
  | None => block
  end.

Definition load_all (tds : gmap N TotalDifficulty) (blocks : Blocks) : Blocks :=
  map (load tds) blocks.

(** the body of the forward loop once a batch is present; returns the
    local [block_progress].  [to_plain_blocks] and the announcement read the
    objects after the whole [for_each]. *)
Definition forward_batch (block_progress_ : BlockNum) (blocks : Blocks) : M BlockNum :=
  s <- get_self ;;
  let st := apply_blocks (chain_fork_view_ s) block_progress_ blocks in
  put_view (b_view st) ;;;
  command (EvInsertBlocks (to_plain_blocks (load_all (b_tds st) blocks)))
          (insert_blocks (to_plain_blocks (load_all (b_tds st) blocks))) ;;;
  send_new_block_announcements (load_all (b_tds st) (b_announce st)) ;;;
  ret (b_progress st).

(** the loop condition of the forward loop *)
Definition forward_continues (block_progress_ : BlockNum) (w : W) : bool :=
  negb (is_stopping w) &&
  negb (in_sync w && (block_progress_ =? current_height w)).

(** the [while] of [forward_and_insert_blocks]; one unit of fuel per test
    of the loop condition *)
Fixpoint forward_loop (fuel : nat) (block_progress_ : BlockNum) : M BlockNum :=
  match fuel with
  | O => out_of_fuel
  | S fuel' =>
      continues <- observe (forward_continues block_progress_) ;;
      if continues then
        popped <- request (EvTimedWaitAndPop 100) (timed_wait_and_pop 100) ;;
        match popped with
        | None => forward_loop fuel' block_progress_
        | Some blocks =>
            block_progress' <- forward_batch block_progress_ blocks ;;
            forward_loop fuel' block_progress'
        end
      else ret block_progress_
  end.

(** what follows the loop: [stop_downloading] and the view's head *)
Definition forward_finish : M NewHeight :=
  command EvStopDownloading stop_downloading ;;;
  s <- get_self ;;
  ret (BlockId.mk (head_height (chain_fork_view_ s)) (head_hash (chain_fork_view_ s))).

Definition forward_and_insert_blocks (fuel : nat) : M NewHeight :=
  initial_block_progress <- request EvBlockProgress block_progress ;;
  command (EvDownloadBlocks initial_block_progress kByAnnouncements)
          (download_blocks initial_block_progress kByAnnouncements) ;;;
  forward_loop fuel initial_block_progress ;;;
  forward_finish.

(** the verification of the new section of the chain, up to the
    assignments that end the loop body *)
Definition verify_chain (new_height : NewHeight) : M unit :=
  verification <- request (EvValidateChain (BlockId.hash new_height))
                          (validate_chain (BlockId.hash new_height)) ;;
  match verification with
  | ValidChain current_head =>
      ensure_invariant (current_head =? BlockId.hash new_height)
        "Invalid verify_chain result" ;;;
      command (EvUpdateForkChoice (BlockId.hash new_height))
              (update_fork_choice (BlockId.hash new_height)) ;;;
      send_new_block_hash_announcements
  | InvalidChain latest_valid_head bad_block bad_headers =>
      latest_valid_height <- request (EvGetBlockNum latest_valid_head)
                                     (get_block_num latest_valid_head) ;;
      ensure_invariant (bool_decide (is_Some latest_valid_height))
        "Invalid latest_valid_head" ;;;
      (* [*latest_valid_height]: it has a value past the check *)
      unwind (BlockId.mk (default 0 latest_valid_height) latest_valid_head) bad_block ;;;
      (if bool_decide (bad_headers = ∅) then ret tt
       else (update_bad_headers bad_headers ;;; ret tt)) ;;;
      command (EvUpdateForkChoice latest_valid_head)
              (update_fork_choice latest_valid_head)
  | ValidationError latest_valid_head missing_block =>
      throw (LogicError ("Consensus, validation error, last point=" ++ to_hex latest_valid_head ++
                         ", missing block=" ++ to_hex missing_block))
  | UnknownVerdict => throw (LogicError "Consensus, unknown error")
  end.

(** the loop body after [new_height] is known; returns the value of
    [is_starting_up] for the next turn *)
Definition after_pass (is_starting_up : bool) (new_height : NewHeight) : M bool :=
  if BlockId.number new_height =? 0 then ret false
  else
    verify_chain new_height ;;;
    put_is_first_sync is_starting_up ;;;
    ret false.

(** one turn of the [while] of [execution_loop] *)
Definition execution_body (fuel : nat) (is_starting_up : bool) : M bool :=
  new_height <- (if is_starting_up then resume else forward_and_insert_blocks fuel) ;;
  after_pass is_starting_up new_height.

Fixpoint execution_while (fuel : nat) (is_starting_up : bool) : M unit :=
  match fuel with
  | O => out_of_fuel
  | S fuel' =>
      stopping <- observe is_stopping ;;
      if stopping then ret tt
      else
        is_starting_up' <- execution_body fuel' is_starting_up ;;
        execution_while fuel' is_starting_up'
  end.

Definition execution_loop (fuel : nat) : M unit :=
  last_headers <- request (EvGetLastHeaders 65536) (get_last_headers 65536) ;;
  command (EvInitialState last_headers) (initial_state last_headers) ;;;
  execution_while fuel true.

(** [PoWSync::PoWSync]: the view starts from [ChainHead{}].
    Modelled from the spec: [is_first_sync_] is declared with the class,
    outside the sources at hand; the flag is true until the first
    complete verify cycle finishes, so it starts true. *)
Definition new_PoWSync : PoWSync :=
  mkPoWSync (new_view (ChainHead.mk 0 0 0)) true.

Definition start (w : W) : Config := mkConfig new_PoWSync w [].

End Driver.

Arguments Config W V : clear implicits.
Arguments PoWSync V : clear implicits.

(** ** A scripted outside, to run the driver on

    The engine keeps a fork choice, a block progress and its stored headers,
    and answers [validate_chain] from a script (a valid verdict on the target
    once the script is used up).  The exchange serves the scripted results of
    the successive timed waits; once they are used up, the stop request
    arrives during the next wait; it keeps the messages it accepts, in
    order, in [outbox]. *)
Module Sim.

Record World := mk {
  fork_choice : BlockId.t;
  progress : BlockNum;
  headers : list BlockHeader.t;
  verdicts : list ValidationResult;
  known : list (Hash * BlockNum);
  queue : list (option Blocks);
  stop : bool;
  synced : bool;
  tip : BlockNum;
  outbox : list Message
}.

Definition set_progress (w : World) (p : BlockNum) : World :=
  mk (fork_choice w) p (headers w) (verdicts w) (known w) (queue w) (stop w) (synced w) (tip w) (outbox w).

Definition set_fork_choice (w : World) (h : BlockId.t) : World :=
  mk h (progress w) (headers w) (verdicts w) (known w) (queue w) (stop w) (synced w) (tip w) (outbox w).

Definition set_verdicts (w : World) (vs : list ValidationResult) : World :=
  mk (fork_choice w) (progress w) (headers w) vs (known w) (queue w) (stop w) (synced w) (tip w) (outbox w).

Definition set_queue (w : World) (q : list (option Blocks)) (s : bool) : World :=
  mk (fork_choice w) (progress w) (headers w) (verdicts w) (known w) q s (synced w) (tip w) (outbox w).

Definition post (m : Message) (w : World) : World :=
  mk (fork_choice w) (progress w) (headers w) (verdicts w) (known w) (queue w) (stop w)
     (synced w) (tip w) (outbox w ++ [m]).

Definition lookup_num (h : Hash) (w : World) : option BlockNum :=
  match find (fun p => fst p =? h) (known w) with
  | Some p => Some (snd p)
  | None => None
  end.

Definition last_n (n : N) (hs : list BlockHeader.t) : list BlockHeader.t :=
  skipn (length hs - N.to_nat n)%nat hs.

#[global] Instance engine : ExecutionClient World := {
  last_fork_choice w := (fork_choice w, w);
  block_progress w := (progress w, w);
  get_last_headers n w := (last_n n (headers w), w);
  insert_blocks bs w :=
    set_progress w (fold_left N.max (map (fun b => BlockHeader.number (Block.header b)) bs) (progress w));
  validate_chain h w :=
    match verdicts w with
    | [] => (ValidChain h, w)
    | v :: vs => (v, set_verdicts w vs)
    end;
  update_fork_choice h w :=
    set_fork_choice w (BlockId.mk (default (BlockId.number (fork_choice w)) (lookup_num h w)) h);
  get_block_num h w := (lookup_num h w, w)
}.

#[global] Instance exchange : BlockExchange World := {
  initial_state _ w := w;
  download_blocks _ _ w := w;
  timed_wait_and_pop _ w :=
    match queue w with
    | [] => (None, set_queue w [] true)
    | r :: q => (r, set_queue w q (stop w))
    end;
  in_sync w := synced w;
  current_height w := tip w;
  stop_downloading w := w;
  accept m w := post m w
}.

#[global] Instance component : ActiveComponent World := {
  is_stopping w := stop w
}.

(** A view that follows one chain: a header whose parent is the head
    becomes the head.  The scripted headers carry their own digest in
    [extra]. *)
Definition View := ChainHead.t.

#[global] Instance view : ChainForkView View := {
  new_view h := h;
  reset_head b _ := ChainHead.mk (BlockId.number b) (BlockId.hash b) 0;
  add hd v :=
    let td := ChainHead.total_difficulty v + BlockHeader.difficulty hd in
    if BlockHeader.parent_hash hd =? ChainHead.hash v
    then (td, ChainHead.mk (BlockHeader.number hd) (BlockHeader.extra hd) td)
    else (BlockHeader.difficulty hd, v);
  head v := v;
  head_height v := ChainHead.height v;
  head_hash v := ChainHead.hash v
}.

Definition to_hex (h : Hash) : string := EmptyString.

(** header and block number [n] on the scripted chain: digest [n + 1000],
    parent [n + 999], difficulty 1; the block object of number [n] sits at
    address [n] *)
Definition header (n : N) : BlockHeader.t := BlockHeader.mk (n + 999) n 1 (n + 1000).
Definition block (n : N) (announce : bool) : BlockEx.t := BlockEx.mk (header n) n 0 announce n.

(** an engine whose fork choice and progress are both at block [n] *)
Definition at_block (n : N) (q : list (option Blocks)) (vs : list ValidationResult) : World :=
  mk (BlockId.mk n (n + 1000)) n (map header [n]) vs [(n + 1000, n)] q false false 0 [].

(** a driver whose view has been reset to the engine's fork choice *)
Definition config (w : World) (first_sync : bool) : Config World View :=
  mkConfig (mkPoWSync (reset_head (fork_choice w) (new_view (ChainHead.mk 0 0 0))) first_sync) w [].

End Sim.

(** ** Vocabulary of the statements *)

Section Statements.
Context {W V : Type}.
Context {EE : ExecutionClient W} {BE : BlockExchange W} {AC : ActiveComponent W}.
Context {CFV : ChainForkView V}.
Variable to_hex : Hash -> string.

Implicit Types (c : Config W V).

(** the calls made between two configurations *)
Definition calls_since c c' : list Event := skipn (length (trace c)) (trace c').

(** What remains of a turn of the driver loop once the forward loop is at
    its head with the local [block_progress]: the loop, [stop_downloading],
    and the rest of the loop body. *)
Definition forward_rest (fuel : nat) (block_progress_ : BlockNum) : M bool :=
  bind (bind (forward_loop fuel block_progress_) (fun _ => forward_finish))
       (after_pass to_hex false).

(** The configuration [forward_and_insert_blocks] enters its loop with. *)
Definition forward_entry c : BlockNum * Config W V :=
  let (p, w1) := block_progress (world c) in
  (p, mkConfig (self c) (download_blocks p kByAnnouncements w1)
               (trace c ++ [EvBlockProgress; EvDownloadBlocks p kByAnnouncements])).

(** The view after a batch, block by block: the [td] the [i]-th block is
    given is what [add] returns on its header, the blocks before it having
    been added. *)
Definition td_of_nth (v : V) (blocks : Blocks) (i : nat) (b : BlockEx.t) : TotalDifficulty :=
  fst (add (BlockEx.header b) (add_headers (map BlockEx.header (firstn i blocks)) v)).

(** The blocks a batch announces: the objects behind the flagged pointers,
    read after the whole batch has been gone through. *)
Definition announced (v : V) (bp : BlockNum) (blocks : Blocks) : Blocks :=
  load_all (b_tds (apply_blocks v bp blocks)) (List.filter BlockEx.to_announce blocks).

(** [b'] is the block object [b] points to, holding the [td] that the
    writes [tds] left at its address *)
Definition same_block_with_td (tds : gmap N TotalDifficulty) (b' b : BlockEx.t) : Prop :=
  BlockEx.header b' = BlockEx.header b /\
  BlockEx.body b' = BlockEx.body b /\
  BlockEx.to_announce b' = BlockEx.to_announce b /\
  BlockEx.addr b' = BlockEx.addr b /\
  tds !! BlockEx.addr b = Some (BlockEx.td b').

(** the configuration after a batch *)
Definition after_batch (bp : BlockNum) (blocks : Blocks) c : Config W V :=
  let st := apply_blocks (chain_fork_view_ (self c)) bp blocks in
  let plain := to_plain_blocks blocks in
  let inserted := insert_blocks plain (world c) in
  let message := OutboundNewBlock (announced (chain_fork_view_ (self c)) bp blocks)
                                  (is_first_sync_ (self c)) in
  mkConfig (mkPoWSync (b_view st) (is_first_sync_ (self c)))
           (match b_announce st with
            | [] => inserted
            | _ :: _ => accept message inserted
            end)
           (trace c ++ EvInsertBlocks plain ::
              match b_announce st with
              | [] => []
              | _ :: _ => [EvAccept message]
              end).

(** *** Readings of the specification that the driver does not follow *)

(** A batch read as: [insert_blocks] for the batch, then always an
    [OutboundNewBlock] with the flagged blocks. *)
Definition batch_always_announced (bp : BlockNum) (blocks : Blocks) c : Prop :=
  calls_since c (snd (forward_batch bp blocks c)) =
    [EvInsertBlocks (to_plain_blocks blocks);
     EvAccept (OutboundNewBlock (announced (chain_fork_view_ (self c)) bp blocks)
                                (is_first_sync_ (self c)))].

(** A stop seen at the head of the forward loop read as: the driver calls
    [stop_downloading] and ends the turn without any [validate_chain]. *)
Definition stop_skips_validation (fuel : nat) (bp : BlockNum) c : Prop :=
  is_stopping (world c) = true ->
  let r := forward_rest fuel bp c in
  In EvStopDownloading (calls_since c (snd r)) /\
  forall h, ~ In (EvValidateChain h) (calls_since c (snd r)).

End Statements.

(** *** The calls of each part of a turn *)

(** the calls [resume] can make *)
Definition resume_call (e : Event) : bool :=
  match e with
  | EvLastForkChoice | EvBlockProgress | EvGetLastHeaders _ => true
  | _ => false
  end.

(** the calls the forward loop and [stop_downloading] can make, [f] being
    the flag the announcements carry *)
Definition forward_call (f : bool) (e : Event) : bool :=
  match e with
  | EvTimedWaitAndPop _ | EvInsertBlocks _ | EvStopDownloading => true
  | EvAccept (OutboundNewBlock _ f') => eqb f' f
  | _ => false
  end.

(** the calls of a verify cycle on the hash [h], and whether the cycle
    completes; [f] is the flag the hash announcement carries *)
Inductive cycle_calls (f : bool) (h : Hash) : bool -> list Event -> Prop :=
| cycle_valid :
    cycle_calls f h true
      [EvValidateChain h; EvUpdateForkChoice h; EvAccept (OutboundNewBlockHashes f)]
| cycle_invalid lvh p bb :
    cycle_calls f h true
      [EvValidateChain h; EvGetBlockNum lvh; EvUnwind p bb; EvUpdateForkChoice lvh]
| cycle_invalid_bad lvh p bb bads :
    cycle_calls f h true
      [EvValidateChain h; EvGetBlockNum lvh; EvUnwind p bb;
       EvAccept (InternalMessage_add_bad_headers bads); EvUpdateForkChoice lvh]
| cycle_fatal :
    cycle_calls f h false [EvValidateChain h]
| cycle_fatal_unknown lvh :
    cycle_calls f h false [EvValidateChain h; EvGetBlockNum lvh].

Definition returned {A} (o : Outcome A) : bool :=
  match o with
  | Ret _ => true
  | _ => false
  end.

(** *** The [is_first_sync] flag along a run

    A verify cycle is complete once its [update_fork_choice] is made: it is
    the last call on the engine in both the valid and the invalid branch,
    and only the hash announcement of the valid branch follows it.  The
    watch below walks the calls of a run, counts the completed verify
    cycles and compares the flag of every announcement with the count: a
    block announcement must carry [true] exactly when no cycle is complete
    yet, a hash announcement (made after the [update_fork_choice] of its own
    cycle) exactly when at most its own cycle is.

    With [count_resume = true] every completed verify cycle counts.  With
    [count_resume = false] only the verify cycles that come after a forward
    pass began do, so the verify cycle of [resume] does not. *)

Record Watch := mkWatch {
  forwarded : bool;
  cycles_done : nat;
  flags_right : bool
}.

Definition watch (count_resume : bool) (m : Watch) (e : Event) : Watch :=
  match e with
  | EvDownloadBlocks _ _ => mkWatch true (cycles_done m) (flags_right m)
  | EvUpdateForkChoice _ =>
      if count_resume || forwarded m
      then mkWatch (forwarded m) (S (cycles_done m)) (flags_right m)
      else m
  | EvAccept (OutboundNewBlock _ f) =>
      mkWatch (forwarded m) (cycles_done m)
              (flags_right m && eqb f (Nat.eqb (cycles_done m) 0))
  | EvAccept (OutboundNewBlockHashes f) =>
      mkWatch (forwarded m) (cycles_done m)
              (flags_right m && eqb f (Nat.leb (cycles_done m) 1))
  | _ => m
  end.

Definition watch_all (count_resume : bool) (m : Watch) (t : list Event) : Watch :=
  fold_left (watch count_resume) t m.

Definition watch_start : Watch := mkWatch false 0 true.

(** the flag is true up to and including the first completed verify cycle *)
Definition first_sync_until_first_cycle (t : list Event) : bool :=
  flags_right (watch_all true watch_start t).

(** the flag is true up to and including the first completed verify cycle
    that follows a forward pass *)
Definition first_sync_until_first_forward_cycle (t : list Event) : bool :=
  flags_right (watch_all false watch_start t).

(** What holds of a configuration at the head of the driver loop, with
    [is_starting_up] the local flag of [execution_loop]: the announcements
    so far carried the right flag, [is_first_sync_] is true exactly when no
    verify cycle after a forward pass is complete, and while starting up no
    forward pass has begun. *)
Definition on_track {W V : Type} (is_starting_up : bool) (c : Config W V) : Prop :=
  let m := watch_all false watch_start (trace c) in
  flags_right m = true /\
  is_first_sync_ (self c) = Nat.eqb (cycles_done m) 0 /\
  (forwarded m = false -> cycles_done m = 0%nat) /\
  (is_starting_up = true -> forwarded m = false).

(** *** Scripted runs *)
Module Scenario.
Import Sim.

(** engine at block 100; one batch (101 announced, 102 not), then the
    stop request arrives during the next wait *)
Definition one_batch : World :=
  at_block 100 [Some [block 101 true; block 102 false]] [].

(** engine at block 100; nothing comes: the stop request arrives during the
    first wait *)
Definition stop_in_wait : World := at_block 100 [] [].

(** the same with the stop flag already up *)
Definition stopping : World := set_queue (at_block 100 [] []) [] true.

(** an engine whose fork choice (block 5) is beyond its progress (3) *)
Definition head_beyond : World := set_progress (at_block 5 [] []) 3.

(** an engine whose progress (103) is ahead of its fork choice (100), with
    the headers 100 to 103 stored *)
Definition tips_ahead : World :=
  mk (BlockId.mk 100 1100) 103 (map header [100; 101; 102; 103]) []
     [(1100, 100)] [] false false 0 [].

(** an empty database *)
Definition empty_db : World := at_block 0 [Some [block 1 true]] [].

(** an exchange that is in sync at block 100 from the start: every forward
    pass ends at once *)
Definition in_sync_at_100 : World :=
  mk (BlockId.mk 100 1100) 100 (map header [100]) [] [(1100, 100)] [] false true 100 [].

(** the engine finds the chain invalid down to block 100 *)
Definition invalid_chain (bad : gset Hash) : World :=
  at_block 100 [] [InvalidChain 1100 (Some 1101) bad].

(** the engine names a latest valid head it does not know *)
Definition invalid_unknown : World :=
  at_block 100 [] [InvalidChain 7 None ∅].

(** the engine answers with another head than the one asked for *)
Definition valid_mismatch : World :=
  at_block 100 [] [ValidChain 7].

End Scenario.

(** ** Vocabulary for whole passes and whole runs *)

(** the plain blocks handed to [insert_blocks] along some calls, in order *)
Definition inserted_blocks (t : list Event) : list Block.t :=
  flat_map (fun e => match e with EvInsertBlocks bs => bs | _ => [] end) t.

Definition block_numbers (bs : list Block.t) : list BlockNum :=
  map (fun b => BlockHeader.number (Block.header b)) bs.

Definition block_headers (bs : list Block.t) : list BlockHeader.t :=
  map Block.header bs.

(** the calls of the forward loop for one batch: [insert_blocks], then, when
    some blocks are flagged, one announcement; the announced blocks are
    flagged blocks of the inserted batch, in the order of the batch *)
Inductive batch_calls (f : bool) : list Event -> Prop :=
| batch_quiet ps :
    batch_calls f [EvInsertBlocks ps]
| batch_loud ps bs :
    bs <> [] ->
    Forall (fun b => BlockEx.to_announce b = true) bs ->
    sublist (to_plain_blocks bs) ps ->
    batch_calls f [EvInsertBlocks ps; EvAccept (OutboundNewBlock bs f)].

(** the calls of the forward loop, turn by turn: a wait that times out, or
    a wait followed by the calls for the batch it brought *)
Inductive loop_turns (f : bool) : list Event -> Prop :=
| loop_nil : loop_turns f []
| loop_timeout t :
    loop_turns f t -> loop_turns f (EvTimedWaitAndPop 100 :: t)
| loop_batch tb t :
    batch_calls f tb -> loop_turns f t -> loop_turns f (EvTimedWaitAndPop 100 :: tb ++ t).

(** how a part of the run ended *)
Inductive Ending := Completed | Threw | Starved.

Definition ending {A} (o : Outcome A) : Ending :=
  match o with
  | Ret _ => Completed
  | Throw _ => Threw
  | OutOfFuel => Starved
  end.

(** the calls of the pass of a turn ([resume] in the first turn, the forward
    pass afterwards) and how the pass ended; [f] is the value of
    [is_first_sync_] during the pass *)
Inductive pass_calls : bool -> bool -> Ending -> list Event -> Prop :=
| pass_resume_at f :
    pass_calls true f Completed [EvLastForkChoice; EvBlockProgress]
| pass_resume_below f :
    pass_calls true f Completed [EvLastForkChoice; EvBlockProgress; EvGetLastHeaders 128]
| pass_resume_beyond f :
    pass_calls true f Threw [EvLastForkChoice; EvBlockProgress]
| pass_forward f p t :
    loop_turns f t ->
    pass_calls false f Completed
      (EvBlockProgress :: EvDownloadBlocks p kByAnnouncements :: t ++ [EvStopDownloading])
| pass_forward_open f p t :
    loop_turns f t ->
    pass_calls false f Starved (EvBlockProgress :: EvDownloadBlocks p kByAnnouncements :: t).

(** the calls of the driver loop from a loop head on, where
    [is_starting_up] and [is_first_sync_] have the values [isu] and [f], and
    how the loop ended: the loop exits or starves at its head; or the pass
    of the turn does not complete; or it completes and the turn ends there
    (height 0), or a verify cycle follows that throws, or one that
    completes, after which [is_first_sync_] has the value [is_starting_up]
    had, and [is_starting_up] is false *)
Inductive run_turns : bool -> bool -> Ending -> list Event -> Prop :=
| run_exit isu f :
    run_turns isu f Completed []
| run_starved isu f :
    run_turns isu f Starved []
| run_pass_open isu f e t :
    e <> Completed -> pass_calls isu f e t -> run_turns isu f e t
| run_skip isu f e t rest :
    pass_calls isu f Completed t -> run_turns false f e rest -> run_turns isu f e (t ++ rest)
| run_fatal isu f t h tc :
    pass_calls isu f Completed t -> cycle_calls f h false tc -> run_turns isu f Threw (t ++ tc)
| run_cycle isu f e t h tc rest :
    pass_calls isu f Completed t -> cycle_calls f h true tc -> run_turns false isu e rest ->
    run_turns isu f e (t ++ tc ++ rest).

(** *** Watches over the calls of a run *)

Definition is_download (e : Event) : bool :=
  match e with EvDownloadBlocks _ _ => true | _ => false end.

Definition is_stop_downloading (e : Event) : bool :=
  match e with EvStopDownloading => true | _ => false end.

Definition is_validate (e : Event) : bool :=
  match e with EvValidateChain _ => true | _ => false end.

Definition is_update (e : Event) : bool :=
  match e with EvUpdateForkChoice _ => true | _ => false end.

Definition is_last_fork_choice (e : Event) : bool :=
  match e with EvLastForkChoice => true | _ => false end.

Definition count (p : Event -> bool) (t : list Event) : nat := length (List.filter p t).

(** Downloading and verifying exclude each other: [downloading] tells
    whether a [download_blocks] is not yet followed by its
    [stop_downloading]; a download may only start when none is on, a stop
    only end one that is on, and the engine is only asked to validate or to
    move its fork choice when none is on. *)
Definition download_watch (st : bool * bool) (e : Event) : bool * bool :=
  let (downloading, right) := st in
  match e with
  | EvDownloadBlocks _ _ => (true, right && negb downloading)
  | EvStopDownloading => (false, right && downloading)
  | EvValidateChain _ | EvUpdateForkChoice _ => (downloading, right && negb downloading)
  | _ => st
  end.

Definition downloads_bracketed (t : list Event) : bool :=
  snd (fold_left download_watch t (false, true)).

Definition still_downloading (t : list Event) : bool :=
  fst (fold_left download_watch t (false, true)).

(** Every [update_fork_choice] answers one [validate_chain]: [pending] is
    the hash passed to a [validate_chain] not yet answered by an update;
    an update needs one pending, and a new validation comes only when none
    is pending. *)
Definition verdict_watch (st : bool * bool) (e : Event) : bool * bool :=
  let (pending, right) := st in
  match e with
  | EvValidateChain _ => (true, right && negb pending)
  | EvUpdateForkChoice _ => (false, right && pending)
  | _ => st
  end.

Definition updates_answer_validations (t : list Event) : bool :=
  snd (fold_left verdict_watch t (false, true)).

Definition validation_unanswered (t : list Event) : bool :=
  fst (fold_left verdict_watch t (false, true)).

(** *** Verdicts *)

(** the verdicts the driver goes on with *)
Definition decided (v : ValidationResult) : bool :=
  match v with
  | ValidChain _ | InvalidChain _ _ _ => true
  | _ => false
  end.

(** the diagnostic of the other verdicts *)
Definition undecided_diagnostic (to_hex : Hash -> string) (v : ValidationResult) : string :=
  match v with
  | ValidationError latest_valid_head missing_block =>
      "Consensus, validation error, last point=" ++ to_hex latest_valid_head ++
      ", missing block=" ++ to_hex missing_block
  | _ => "Consensus, unknown error"
  end.

(** *** Announcements and inserts *)

Definition is_block_announcement (e : Event) : bool :=
  match e with
  | EvAccept (OutboundNewBlock _ _) => true
  | _ => false
  end.

(** calls that do not begin with a block announcement *)
Definition quiet_start (t : list Event) : Prop :=
  match t with
  | e :: _ => is_block_announcement e = false
  | [] => True
  end.

(** Every block announcement among the calls comes right after an
    [insert_blocks]; it is not empty, all its blocks are flagged
    [to_announce], and they are blocks of the batch just inserted, in the
    order of the batch. *)
Definition announcement_follows_insert (t : list Event) : Prop :=
  forall t1 bs f t2,
    t = t1 ++ EvAccept (OutboundNewBlock bs f) :: t2 ->
    bs <> [] /\
    Forall (fun b => BlockEx.to_announce b = true) bs /\
    exists t0 ps, t1 = t0 ++ [EvInsertBlocks ps] /\ sublist (to_plain_blocks bs) ps.

(** the [is_first_sync] flags of the announcements among the calls, in
    order *)
Definition announced_flags (t : list Event) : list bool :=
  flat_map (fun e => match e with
                     | EvAccept (OutboundNewBlock _ f) => [f]
                     | EvAccept (OutboundNewBlockHashes f) => [f]
                     | _ => []
                     end) t.

(** some [true]s, then only [false]s *)
Definition true_then_false (l : list bool) : Prop :=
  exists n m, l = repeat true n ++ repeat false m.

(** *** More scripted runs *)
Module Script.
Import Sim.

(** the engine cannot decide: an ancestor is missing *)
Definition validation_error : World :=
  at_block 100 [] [ValidationError 1100 1099].

(** the engine finds the chain invalid down to block 100, which it knows *)
Definition invalid_once : World :=
  at_block 100 [] [InvalidChain 1100 (Some 1101) {[1101]}].

(** a driver at the head of block 100 *)
Definition at_head (w : World) : Config World View := config w true.

End Script.

(** * Facts about the driver *)

Section DriverFacts.
Context {W V : Type}.
Context {EE : ExecutionClient W} {BE : BlockExchange W} {AC : ActiveComponent W}.
Context {CFV : ChainForkView V}.
Variable to_hex : Hash -> string.

Implicit Types (c : Config W V) (t : list Event).

Lemma calls_since_app c c' t : trace c' = trace c ++ t -> calls_since c c' = t.
Proof.
  intros E. unfold calls_since. rewrite E.
  rewrite skipn_app, skipn_all, Nat.sub_diag. reflexivity.
Qed.

(** ** [resume] *)

(** [resume] when the head is beyond the block progress *)
Lemma resume_beyond c head_ w1 bp w2 :
  last_fork_choice (world c) = (head_, w1) ->
  block_progress w1 = (bp, w2) ->
  bp < height head_ ->
  resume c =
    (Throw (LogicError "Consensus invariant violation: canonical head beyond block progress"),
     mkConfig (mkPoWSync (reset_head head_ (chain_fork_view_ (self c))) (is_first_sync_ (self c)))
              w2 (trace c ++ [EvLastForkChoice; EvBlockProgress])).
Proof.
  intros E1 E2 Hlt.
  unfold resume, bind, request, get_self, put_view, put_self, ensure_invariant, throw, bind.
  rewrite E1. cbn. rewrite E2. cbn.
  apply N.leb_gt in Hlt. rewrite Hlt. cbn.
  rewrite <- app_assoc. reflexivity.
Qed.

(** [resume] when the head is at the block progress *)
Lemma resume_at c head_ w1 bp w2 :
  last_fork_choice (world c) = (head_, w1) ->
  block_progress w1 = (bp, w2) ->
  bp = height head_ ->
  resume c =
    (Ret head_,
     mkConfig (mkPoWSync (reset_head head_ (chain_fork_view_ (self c))) (is_first_sync_ (self c)))
              w2 (trace c ++ [EvLastForkChoice; EvBlockProgress])).
Proof.
  intros E1 E2 ->.
  unfold resume, bind, request, get_self, put_view, put_self, ensure_invariant, ret, bind.
  rewrite E1. cbn. rewrite E2. cbn.
  rewrite N.leb_refl, N.eqb_refl. cbn.
  rewrite <- app_assoc. reflexivity.
Qed.

(** [resume] when the head is below the block progress *)
Lemma resume_below c head_ w1 bp w2 hs w3 :
  last_fork_choice (world c) = (head_, w1) ->
  block_progress w1 = (bp, w2) ->
  height head_ < bp ->
  get_last_headers 128 w2 = (hs, w3) ->
  let v := add_headers hs (reset_head head_ (chain_fork_view_ (self c))) in
  resume c =
    (Ret (to_BlockId (head v)),
     mkConfig (mkPoWSync v (is_first_sync_ (self c)))
              w3 (trace c ++ [EvLastForkChoice; EvBlockProgress; EvGetLastHeaders 128])).
Proof.
  intros E1 E2 Hlt E3 v.
  unfold resume, bind, request, get_self, put_view, put_self, ensure_invariant, ret, bind.
  rewrite E1. cbn. rewrite E2. cbn.
  assert (L : (height head_ <=? bp) = true) by (apply N.leb_le; lia).
  assert (Q : (bp =? height head_) = false) by (apply N.eqb_neq; lia).
  rewrite L, Q. cbn. rewrite E3. cbn.
  rewrite <- !app_assoc. reflexivity.
Qed.

(** C5: [resume] throws exactly when the height of the head returned by
    [last_fork_choice] exceeds the value returned by [block_progress]; the
    view has then already been reset to that head, and nothing but the two
    requests has been made. *)
Theorem resume_fatal_iff_head_beyond_progress c head_ w1 bp w2 :
  last_fork_choice (world c) = (head_, w1) ->
  block_progress w1 = (bp, w2) ->
  ((exists e, fst (resume c) = Throw e) <-> bp < height head_) /\
  (bp < height head_ ->
     fst (resume c) =
       Throw (LogicError "Consensus invariant violation: canonical head beyond block progress") /\
     chain_fork_view_ (self (snd (resume c))) = reset_head head_ (chain_fork_view_ (self c)) /\
     calls_since c (snd (resume c)) = [EvLastForkChoice; EvBlockProgress]).
Proof.
  intros E1 E2. split.
  - split.
    + intros [e He].
      destruct (N.lt_trichotomy bp (height head_)) as [Hlt | [Heq | Hgt]]; [exact Hlt | |].
      * rewrite (resume_at c head_ w1 bp w2 E1 E2 Heq) in He. discriminate He.
      * destruct (get_last_headers 128 w2) as [hs w3] eqn:E3.
        rewrite (resume_below c head_ w1 bp w2 hs w3 E1 E2 Hgt E3) in He. discriminate He.
    + intros Hlt. rewrite (resume_beyond c head_ w1 bp w2 E1 E2 Hlt). eexists. reflexivity.
  - intros Hlt. rewrite (resume_beyond c head_ w1 bp w2 E1 E2 Hlt). cbn.
    repeat split. apply calls_since_app. reflexivity.
Qed.

(** C6: at the block progress [resume] returns the head it was given and
    does not call [get_last_headers]; otherwise (the check of C5 passed, so
    below the block progress) it fetches the last 128 headers from the
    engine, adds each of them to the view in the order they came, and
    returns the head of the view. *)
Theorem resume_returns_head c head_ w1 bp w2 hs w3 :
  last_fork_choice (world c) = (head_, w1) ->
  block_progress w1 = (bp, w2) ->
  get_last_headers 128 w2 = (hs, w3) ->
  (bp = height head_ ->
     fst (resume c) = Ret head_ /\
     (forall n, ~ In (EvGetLastHeaders n) (calls_since c (snd (resume c)))) /\
     calls_since c (snd (resume c)) = [EvLastForkChoice; EvBlockProgress] /\
     world (snd (resume c)) = w2 /\
     chain_fork_view_ (self (snd (resume c))) = reset_head head_ (chain_fork_view_ (self c))) /\
  (height head_ < bp ->
     let v := fold_left (fun v h => snd (add h v)) hs
                        (reset_head head_ (chain_fork_view_ (self c))) in
     calls_since c (snd (resume c)) = [EvLastForkChoice; EvBlockProgress; EvGetLastHeaders 128] /\
     chain_fork_view_ (self (snd (resume c))) = v /\
     fst (resume c) = Ret (to_BlockId (head v)) /\
     world (snd (resume c)) = w3).
Proof.
  intros E1 E2 E3. split.
  - intros Heq. rewrite (resume_at c head_ w1 bp w2 E1 E2 Heq). cbn.
    split; [reflexivity|]. erewrite calls_since_app by reflexivity.
    split; [|repeat split].
    intros n. cbn. intros [H | [H | []]]; discriminate H.
  - intros Hlt v. rewrite (resume_below c head_ w1 bp w2 hs w3 E1 E2 Hlt E3). cbn.
    repeat split. apply calls_since_app. reflexivity.
Qed.

End DriverFacts.

Section VerifyFacts.
Context {W V : Type}.
Context {EE : ExecutionClient W} {BE : BlockExchange W} {AC : ActiveComponent W}.
Context {CFV : ChainForkView V}.
Variable to_hex : Hash -> string.

Implicit Types (c : Config W V) (t : list Event).

(** ** The verify cycle *)

Ltac run_driver :=
  unfold after_pass, verify_chain, send_new_block_hash_announcements, update_bad_headers,
    unwind, put_is_first_sync, put_view, put_self, get_self, ensure_invariant,
    request, command, record_call, observe, throw, ret, bind.

(** a valid verdict on the hash that was asked for *)
Lemma after_pass_valid isu new_height c w1 :
  BlockId.number new_height <> 0 ->
  validate_chain (BlockId.hash new_height) (world c) = (ValidChain (BlockId.hash new_height), w1) ->
  after_pass to_hex isu new_height c =
    (Ret false,
     mkConfig (mkPoWSync (chain_fork_view_ (self c)) isu)
              (accept (OutboundNewBlockHashes (is_first_sync_ (self c)))
                      (update_fork_choice (BlockId.hash new_height) w1))
              (trace c ++ [EvValidateChain (BlockId.hash new_height);
                           EvUpdateForkChoice (BlockId.hash new_height);
                           EvAccept (OutboundNewBlockHashes (is_first_sync_ (self c)))])).
Proof.
  intros Hn E. run_driver.
  apply N.eqb_neq in Hn. rewrite Hn, E. cbn. rewrite N.eqb_refl. cbn.
  rewrite <- !app_assoc. reflexivity.
Qed.

(** a valid verdict on another hash *)
Lemma after_pass_valid_mismatch isu new_height c current_head w1 :
  BlockId.number new_height <> 0 ->
  validate_chain (BlockId.hash new_height) (world c) = (ValidChain current_head, w1) ->
  current_head <> BlockId.hash new_height ->
  after_pass to_hex isu new_height c =
    (Throw (LogicError "Consensus invariant violation: Invalid verify_chain result"),
     mkConfig (self c) w1 (trace c ++ [EvValidateChain (BlockId.hash new_height)])).
Proof.
  intros Hn E Hne. run_driver.
  apply N.eqb_neq in Hn. apply N.eqb_neq in Hne. rewrite Hn, E. cbn. rewrite Hne. cbn.
  reflexivity.
Qed.

(** an invalid verdict whose latest valid head the engine cannot number *)
Lemma after_pass_invalid_unknown isu new_height c lvh bad_block bad_headers w1 w2 :
  BlockId.number new_height <> 0 ->
  validate_chain (BlockId.hash new_height) (world c) = (InvalidChain lvh bad_block bad_headers, w1) ->
  get_block_num lvh w1 = (None, w2) ->
  after_pass to_hex isu new_height c =
    (Throw (LogicError "Consensus invariant violation: Invalid latest_valid_head"),
     mkConfig (self c) w2
              (trace c ++ [EvValidateChain (BlockId.hash new_height); EvGetBlockNum lvh])).
Proof.
  intros Hn E1 E2. run_driver.
  apply N.eqb_neq in Hn. rewrite Hn, E1. cbn. rewrite E2. cbn.
  rewrite <- !app_assoc. reflexivity.
Qed.

(** an invalid verdict, the latest valid head at block [n] *)
Lemma after_pass_invalid isu new_height c lvh bad_block bad_headers w1 n w2 :
  BlockId.number new_height <> 0 ->
  validate_chain (BlockId.hash new_height) (world c) = (InvalidChain lvh bad_block bad_headers, w1) ->
  get_block_num lvh w1 = (Some n, w2) ->
  after_pass to_hex isu new_height c =
    (Ret false,
     mkConfig (mkPoWSync (chain_fork_view_ (self c)) isu)
              (update_fork_choice lvh
                 (if bool_decide (bad_headers = ∅) then w2
                  else accept (InternalMessage_add_bad_headers bad_headers) w2))
              (trace c ++
                 [EvValidateChain (BlockId.hash new_height); EvGetBlockNum lvh;
                  EvUnwind (BlockId.mk n lvh) bad_block] ++
                 (if bool_decide (bad_headers = ∅) then []
                  else [EvAccept (InternalMessage_add_bad_headers bad_headers)]) ++
                 [EvUpdateForkChoice lvh])).
Proof.
  intros Hn E1 E2. run_driver.
  apply N.eqb_neq in Hn. rewrite Hn, E1. cbn. rewrite E2. cbn.
  destruct (bool_decide (bad_headers = ∅)); cbn; rewrite <- !app_assoc; reflexivity.
Qed.

(** C3: in a verify cycle with a [ValidChain] verdict the driver throws
    exactly when the verdict's [current_head] differs from the hash it
    passed to [validate_chain], the engine being left as [validate_chain]
    left it; otherwise it calls [update_fork_choice] with that hash and
    hands the [OutboundNewBlockHashes] announcement, carrying
    [is_first_sync_], to the exchange after it: the outside is what
    [accept] makes of what [update_fork_choice] made of the engine. *)
Theorem valid_chain_cycle isu new_height c current_head w1 :
  BlockId.number new_height <> 0 ->
  validate_chain (BlockId.hash new_height) (world c) = (ValidChain current_head, w1) ->
  let r := after_pass to_hex isu new_height c in
  let target := BlockId.hash new_height in
  let announcement := OutboundNewBlockHashes (is_first_sync_ (self c)) in
  ((exists e, fst r = Throw e) <-> current_head <> target) /\
  (current_head <> target ->
     fst r = Throw (LogicError "Consensus invariant violation: Invalid verify_chain result") /\
     calls_since c (snd r) = [EvValidateChain target] /\
     world (snd r) = w1 /\
     self (snd r) = self c) /\
  (current_head = target ->
     fst r = Ret false /\
     calls_since c (snd r) =
       [EvValidateChain target; EvUpdateForkChoice target; EvAccept announcement] /\
     world (snd r) = accept announcement (update_fork_choice target w1) /\
     self (snd r) = mkPoWSync (chain_fork_view_ (self c)) isu).
Proof.
  intros Hn E r target announcement. subst r target announcement.
  destruct (N.eq_dec current_head (BlockId.hash new_height)) as [Heq | Hne].
  - subst current_head. rewrite (after_pass_valid isu new_height c w1 Hn E). cbn.
    split; [|split].
    + split; [intros [e He]; discriminate He | intros H; contradiction H; reflexivity].
    + intros H; contradiction H; reflexivity.
    + intros _. split; [reflexivity|]. split; [|split; reflexivity].
      apply calls_since_app. reflexivity.
  - rewrite (after_pass_valid_mismatch isu new_height c current_head w1 Hn E Hne). cbn.
    split; [|split].
    + split; [intros _; exact Hne | intros _; eexists; reflexivity].
    + intros _. split; [reflexivity|]. split; [|split; reflexivity].
      apply calls_since_app. reflexivity.
    + intros H; contradiction.
Qed.

(** C4: in a verify cycle with an [InvalidChain] verdict the driver asks
    [get_block_num] for the latest valid head and throws exactly when
    there is no answer, nothing further being done; otherwise it calls
    [unwind] (which leaves everything as it is), hands the bad headers to
    the exchange exactly when there are some, calls [update_fork_choice]
    on the latest valid head, and announces no hashes: the outside is what
    [update_fork_choice] makes of the engine, after [accept] when there are
    bad headers. *)
Theorem invalid_chain_cycle isu new_height c lvh bad_block bad_headers w1 lvn w2 :
  BlockId.number new_height <> 0 ->
  validate_chain (BlockId.hash new_height) (world c) = (InvalidChain lvh bad_block bad_headers, w1) ->
  get_block_num lvh w1 = (lvn, w2) ->
  let r := after_pass to_hex isu new_height c in
  let target := BlockId.hash new_height in
  let bads := InternalMessage_add_bad_headers bad_headers in
  ((exists e, fst r = Throw e) <-> lvn = None) /\
  (lvn = None ->
     fst r = Throw (LogicError "Consensus invariant violation: Invalid latest_valid_head") /\
     calls_since c (snd r) = [EvValidateChain target; EvGetBlockNum lvh] /\
     world (snd r) = w2 /\
     self (snd r) = self c) /\
  (forall n, lvn = Some n ->
     fst r = Ret false /\
     self (snd r) = mkPoWSync (chain_fork_view_ (self c)) isu /\
     (bad_headers = ∅ ->
        calls_since c (snd r) =
          [EvValidateChain target; EvGetBlockNum lvh; EvUnwind (BlockId.mk n lvh) bad_block;
           EvUpdateForkChoice lvh] /\
        world (snd r) = update_fork_choice lvh w2) /\
     (bad_headers <> ∅ ->
        calls_since c (snd r) =
          [EvValidateChain target; EvGetBlockNum lvh; EvUnwind (BlockId.mk n lvh) bad_block;
           EvAccept bads; EvUpdateForkChoice lvh] /\
        world (snd r) = update_fork_choice lvh (accept bads w2)) /\
     (forall f, ~ In (EvAccept (OutboundNewBlockHashes f)) (calls_since c (snd r)))).
Proof.
  intros Hn E1 E2 r target bads. subst r target bads. destruct lvn as [n|].
  - rewrite (after_pass_invalid isu new_height c lvh bad_block bad_headers w1 n w2 Hn E1 E2).
    cbn [fst snd]. split; [|split].
    + split; [intros [e He]; discriminate He | intros H; discriminate H].
    + intros H. discriminate H.
    + intros n' [= <-]. split; [reflexivity|]. split; [reflexivity|].
      erewrite calls_since_app by reflexivity. cbn [world].
      split; [|split].
      * intros Hb. rewrite !bool_decide_true by exact Hb. split; reflexivity.
      * intros Hb. rewrite !bool_decide_false by exact Hb. split; reflexivity.
      * intros f. destruct (bool_decide (bad_headers = ∅)); cbn;
          intuition discriminate.
  - rewrite (after_pass_invalid_unknown isu new_height c lvh bad_block bad_headers w1 w2 Hn E1 E2).
    cbn [fst snd]. split; [|split].
    + split; [reflexivity | intros _; eexists; reflexivity].
    + intros _. split; [reflexivity|]. split; [|split; reflexivity].
      apply calls_since_app. reflexivity.
    + intros n H. discriminate H.
Qed.

End VerifyFacts.

Section ForwardFacts.
Context {W V : Type}.
Context {EE : ExecutionClient W} {BE : BlockExchange W} {AC : ActiveComponent W}.
Context {CFV : ChainForkView V}.
Variable to_hex : Hash -> string.

Implicit Types (c : Config W V) (t : list Event) (v : V) (b : BlockEx.t) (blocks : Blocks).

(** ** A batch of the forward pass *)

Lemma apply_block_eq (st : BatchState) b :
  apply_block st b =
    mkBatch (snd (add (BlockEx.header b) (b_view st)))
            (N.max (b_progress st) (BlockHeader.number (BlockEx.header b)))
            (<[BlockEx.addr b := fst (add (BlockEx.header b) (b_view st))]> (b_tds st))
            (if BlockEx.to_announce b then b_announce st ++ [b] else b_announce st).
Proof. unfold apply_block. destruct (add (BlockEx.header b) (b_view st)). reflexivity. Qed.

Lemma apply_blocks_snoc v bp blocks b :
  apply_blocks v bp (blocks ++ [b]) = apply_block (apply_blocks v bp blocks) b.
Proof. unfold apply_blocks. rewrite fold_left_app. reflexivity. Qed.

Lemma add_headers_snoc hs h v :
  add_headers (hs ++ [h]) v = snd (add h (add_headers hs v)).
Proof. unfold add_headers. rewrite fold_left_app. reflexivity. Qed.

(** the view after a batch has had the headers of the batch added in order *)
Lemma apply_blocks_view v bp blocks :
  b_view (apply_blocks v bp blocks) = add_headers (map BlockEx.header blocks) v.
Proof.
  induction blocks as [|b blocks IH] using rev_ind; [reflexivity|].
  rewrite apply_blocks_snoc, apply_block_eq, map_app. cbn.
  rewrite add_headers_snoc, IH. reflexivity.
Qed.

Lemma td_of_nth_app v blocks more i b :
  (i <= length blocks)%nat -> td_of_nth v (blocks ++ more) i b = td_of_nth v blocks i b.
Proof.
  intros Hi. unfold td_of_nth. rewrite firstn_app.
  replace (i - length blocks)%nat with 0%nat by lia.
  cbn. rewrite app_nil_r. reflexivity.
Qed.

Lemma td_of_nth_last v blocks more b :
  td_of_nth v (blocks ++ more) (length blocks) b =
    fst (add (BlockEx.header b) (b_view (apply_blocks v 0 blocks))).
Proof.
  rewrite td_of_nth_app by lia. unfold td_of_nth.
  rewrite firstn_all, apply_blocks_view. reflexivity.
Qed.

Lemma apply_blocks_view_any_progress v bp bp' blocks :
  b_view (apply_blocks v bp blocks) = b_view (apply_blocks v bp' blocks).
Proof. rewrite !apply_blocks_view. reflexivity. Qed.

(** The [td] of a block object after a batch: what [add] returned on its
    header the last time a pointer to it came up in the batch. *)
Lemma apply_blocks_td_last v bp blocks : forall i b,
  blocks !! i = Some b ->
  (forall j b', (i < j)%nat -> blocks !! j = Some b' -> BlockEx.addr b' <> BlockEx.addr b) ->
  b_tds (apply_blocks v bp blocks) !! BlockEx.addr b = Some (td_of_nth v blocks i b).
Proof.
  induction blocks as [|x blocks IH] using rev_ind; intros i b Hi Hlast.
  - discriminate Hi.
  - rewrite apply_blocks_snoc, apply_block_eq. cbn [b_tds].
    destruct (decide (i < length blocks)%nat) as [Hlt | Hge].
    + rewrite lookup_app_l in Hi by exact Hlt.
      assert (Hx : BlockEx.addr x <> BlockEx.addr b).
      { apply (Hlast (length blocks) x Hlt).
        rewrite lookup_app_r by lia. rewrite Nat.sub_diag. reflexivity. }
      rewrite lookup_insert_ne by exact Hx.
      rewrite td_of_nth_app by lia.
      apply IH; [exact Hi|].
      intros j b' Hj Hb'. apply (Hlast j b' Hj).
      rewrite lookup_app_l by (apply lookup_lt_Some in Hb'; exact Hb'). exact Hb'.
    + pose proof (lookup_lt_Some _ _ _ Hi) as Hlen. rewrite length_app in Hlen. cbn in Hlen.
      assert (i = length blocks) as -> by lia.
      rewrite lookup_app_r in Hi by lia.
      rewrite Nat.sub_diag in Hi. cbn in Hi. injection Hi as <-.
      rewrite lookup_insert_eq, td_of_nth_last.
      rewrite (apply_blocks_view_any_progress v bp 0). reflexivity.
Qed.

Lemma firstn_S_lookup {A} (l : list A) i x :
  l !! i = Some x -> firstn (S i) l = firstn i l ++ [x].
Proof.
  revert i. induction l as [|a l IH]; intros [|i] H; try discriminate H.
  - cbn in H. injection H as ->. reflexivity.
  - cbn in H. cbn [firstn]. rewrite (IH i H). reflexivity.
Qed.

(** The write of a turn of the [for_each]: right after the [i]-th pointer
    of the batch has been gone through, the object behind it has the [td]
    that [add] returned on its header. *)
Lemma apply_blocks_td_written v bp blocks i b :
  blocks !! i = Some b ->
  b_tds (apply_blocks v bp (firstn (S i) blocks)) !! BlockEx.addr b =
    Some (td_of_nth v blocks i b).
Proof.
  intros Hi. rewrite (firstn_S_lookup blocks i b Hi).
  rewrite apply_blocks_snoc, apply_block_eq. cbn [b_tds].
  rewrite lookup_insert_eq. f_equal.
  rewrite apply_blocks_view. unfold td_of_nth. reflexivity.
Qed.

(** every object of the batch has had its [td] written *)
Lemma apply_blocks_td_some v bp blocks b :
  In b blocks -> is_Some (b_tds (apply_blocks v bp blocks) !! BlockEx.addr b).
Proof.
  induction blocks as [|x blocks IH] using rev_ind; intros Hin; [destruct Hin|].
  rewrite apply_blocks_snoc, apply_block_eq. cbn [b_tds].
  destruct (decide (BlockEx.addr x = BlockEx.addr b)) as [E | N].
  - rewrite E, lookup_insert_eq. eexists. reflexivity.
  - rewrite lookup_insert_ne by exact N. apply IH.
    apply in_app_or in Hin. destruct Hin as [Hin | [-> | []]]; [exact Hin | contradiction N; reflexivity].
Qed.

(** the local [block_progress] after a batch: the maximum taken block by
    block *)
Lemma apply_blocks_progress v bp blocks :
  b_progress (apply_blocks v bp blocks) =
    fold_left N.max (map (fun b => BlockHeader.number (BlockEx.header b)) blocks) bp.
Proof.
  induction blocks as [|b blocks IH] using rev_ind; [reflexivity|].
  rewrite apply_blocks_snoc, apply_block_eq, map_app, fold_left_app. cbn.
  rewrite IH. reflexivity.
Qed.

Lemma fold_max_ge (ns : list N) (bp : N) : bp <= fold_left N.max ns bp.
Proof.
  revert bp. induction ns as [|n ns IH]; intros bp; cbn; [lia|].
  specialize (IH (N.max bp n)). lia.
Qed.

Lemma fold_max_bounds (ns : list N) (bp n : N) : In n ns -> n <= fold_left N.max ns bp.
Proof.
  revert bp. induction ns as [|m ns IH]; intros bp; cbn; [intros []|].
  intros [-> | Hin].
  - pose proof (fold_max_ge ns (N.max bp n)). lia.
  - apply IH. exact Hin.
Qed.

(** [announcements_to_do] after a batch: the flagged pointers, in order *)
Lemma apply_blocks_announce v bp blocks :
  b_announce (apply_blocks v bp blocks) = List.filter BlockEx.to_announce blocks.
Proof.
  induction blocks as [|b blocks IH] using rev_ind; [reflexivity|].
  rewrite apply_blocks_snoc, apply_block_eq. cbn.
  rewrite List.filter_app. cbn. rewrite <- IH.
  destruct (BlockEx.to_announce b); [reflexivity | rewrite app_nil_r; reflexivity].
Qed.

(** a write to [td] changes neither the plain block nor the flag *)
Lemma load_plain tds b : to_plain_block (load tds b) = to_plain_block b.
Proof. unfold load. destruct (tds !! BlockEx.addr b); reflexivity. Qed.

Lemma load_flag tds b : BlockEx.to_announce (load tds b) = BlockEx.to_announce b.
Proof. unfold load. destruct (tds !! BlockEx.addr b); reflexivity. Qed.

Lemma load_all_plain tds blocks :
  to_plain_blocks (load_all tds blocks) = to_plain_blocks blocks.
Proof.
  unfold to_plain_blocks, load_all. rewrite map_map.
  apply map_ext. intros b. apply load_plain.
Qed.

Lemma filter_nil_by_flags {A} (f : A -> bool) (l : list A) :
  List.filter f l = [] <-> Forall (fun x => x = false) (map f l).
Proof.
  induction l as [|a l IH]; cbn.
  - split; [constructor | reflexivity].
  - destruct (f a) eqn:E.
    + split; [discriminate | intros H; inversion H; discriminate].
    + rewrite IH. split; [intros H; constructor; [reflexivity | exact H] | intros H; inversion H; assumption].
Qed.

(** no block flagged, nothing to announce *)
Lemma apply_blocks_none_flagged v bp blocks :
  Forall (fun b => BlockEx.to_announce b = false) blocks ->
  b_announce (apply_blocks v bp blocks) = [].
Proof.
  intros H. rewrite apply_blocks_announce. apply filter_nil_by_flags.
  apply Forall_map. exact H.
Qed.

(** some block flagged, something to announce *)
Lemma apply_blocks_some_flagged v bp blocks :
  Exists (fun b => BlockEx.to_announce b = true) blocks ->
  b_announce (apply_blocks v bp blocks) <> [].
Proof.
  intros H E. rewrite apply_blocks_announce in E. apply filter_nil_by_flags in E.
  apply Forall_map in E.
  apply Exists_exists in H. destruct H as (b & Hin & Hb).
  rewrite Forall_forall in E. specialize (E b Hin). cbn in E. congruence.
Qed.

(** the announced blocks are the flagged objects of the batch, each with
    the [td] the batch left in it *)
Lemma announced_objects v bp blocks :
  Forall2 (same_block_with_td (b_tds (apply_blocks v bp blocks)))
          (announced v bp blocks) (List.filter BlockEx.to_announce blocks).
Proof.
  unfold announced, load_all. apply Forall2_fmap_l, Forall_Forall2_diag.
  apply List.Forall_forall. intros b Hin. apply List.filter_In in Hin. destruct Hin as [Hin _].
  destruct (apply_blocks_td_some v bp blocks b Hin) as [td Htd].
  unfold compose, same_block_with_td, load. rewrite Htd. cbn. repeat split.
Qed.

Lemma forward_batch_run bp blocks c :
  forward_batch bp blocks c =
    (Ret (b_progress (apply_blocks (chain_fork_view_ (self c)) bp blocks)),
     after_batch bp blocks c).
Proof.
  unfold forward_batch, after_batch, announced, send_new_block_announcements, put_view,
    put_self, get_self, command, ret, bind. cbn.
  rewrite load_all_plain, <- (apply_blocks_announce (chain_fork_view_ (self c)) bp).
  destruct (b_announce (apply_blocks (chain_fork_view_ (self c)) bp blocks)); cbn.
  - reflexivity.
  - rewrite <- app_assoc. reflexivity.
Qed.

(** C7, as the driver has it: the blocks of a batch are taken in queue
    order, each given the [td] that the view's [add] returned on its
    header (so that, after the batch, a block object holds the value of the
    last turn that went through a pointer to it), the local
    [block_progress] raised to the maximum of itself and each block number;
    [insert_blocks] is then called for the whole batch; when some block is
    flagged [to_announce], an [OutboundNewBlock] with exactly the flagged
    blocks, carrying [is_first_sync_], is handed to the exchange after the
    [insert_blocks] call, and when none is flagged, [insert_blocks] is the
    only call. *)
Theorem batch_inserted_then_announced bp blocks c :
  let v := chain_fork_view_ (self c) in
  let st := apply_blocks v bp blocks in
  let r := forward_batch bp blocks c in
  let plain := to_plain_blocks blocks in
  let message := OutboundNewBlock (announced v bp blocks) (is_first_sync_ (self c)) in
  (forall i b, blocks !! i = Some b ->
     b_tds (apply_blocks v bp (firstn (S i) blocks)) !! BlockEx.addr b =
       Some (td_of_nth v blocks i b) /\
     ((forall j b', (i < j)%nat -> blocks !! j = Some b' ->
         BlockEx.addr b' <> BlockEx.addr b) ->
      b_tds st !! BlockEx.addr b = Some (td_of_nth v blocks i b))) /\
  Forall2 (same_block_with_td (b_tds st))
          (announced v bp blocks) (List.filter BlockEx.to_announce blocks) /\
  self (snd r) = mkPoWSync (add_headers (map BlockEx.header blocks) v) (is_first_sync_ (self c)) /\
  fst r = Ret (fold_left N.max (map (fun b => BlockHeader.number (BlockEx.header b)) blocks) bp) /\
  (Exists (fun b => BlockEx.to_announce b = true) blocks ->
     calls_since c (snd r) = [EvInsertBlocks plain; EvAccept message] /\
     world (snd r) = accept message (insert_blocks plain (world c))) /\
  (Forall (fun b => BlockEx.to_announce b = false) blocks ->
     calls_since c (snd r) = [EvInsertBlocks plain] /\
     world (snd r) = insert_blocks plain (world c)).
Proof.
  intros v st r plain message. subst r st plain message v.
  rewrite forward_batch_run. cbn [fst snd].
  split; [|split; [|split; [|split; [|split]]]].
  - intros i b Hi. split.
    + apply apply_blocks_td_written. exact Hi.
    + intros Hlast. apply apply_blocks_td_last; assumption.
  - apply announced_objects.
  - unfold after_batch. cbn. rewrite apply_blocks_view. reflexivity.
  - f_equal. apply apply_blocks_progress.
  - intros Hex.
    pose proof (apply_blocks_some_flagged (chain_fork_view_ (self c)) bp blocks Hex) as Hne.
    split; [apply calls_since_app|]; unfold after_batch; cbn;
      (destruct (b_announce _); [contradiction Hne; reflexivity | reflexivity]).
  - intros Hall.
    pose proof (apply_blocks_none_flagged (chain_fork_view_ (self c)) bp blocks Hall) as Hnil.
    split; [apply calls_since_app|]; unfold after_batch; cbn; rewrite Hnil; reflexivity.
Qed.

(** C10: when no block of a batch is flagged [to_announce] (the empty
    batch included), nothing is handed to the exchange for that batch:
    [send_new_block_announcements] on an empty list returns without
    calling [accept]. *)
Theorem no_flagged_block_no_announcement bp blocks c :
  send_new_block_announcements [] c = (Ret tt, c) /\
  (Forall (fun b => BlockEx.to_announce b = false) blocks ->
     calls_since c (snd (forward_batch bp blocks c)) = [EvInsertBlocks (to_plain_blocks blocks)] /\
     forall m, ~ In (EvAccept m) (calls_since c (snd (forward_batch bp blocks c)))).
Proof.
  split; [reflexivity|].
  intros Hall. rewrite forward_batch_run. cbn [snd].
  assert (E : calls_since c (after_batch bp blocks c) = [EvInsertBlocks (to_plain_blocks blocks)]).
  { apply calls_since_app. unfold after_batch. cbn.
    rewrite (apply_blocks_none_flagged _ bp blocks Hall). reflexivity. }
  rewrite E. split; [reflexivity|].
  intros m [H | []]. discriminate H.
Qed.

(** ** The forward loop *)

Lemma forward_loop_step fuel bp c :
  forward_loop (S fuel) bp c =
    if forward_continues bp (world c) then
      match timed_wait_and_pop 100 (world c) with
      | (None, w1) =>
          forward_loop fuel bp (mkConfig (self c) w1 (trace c ++ [EvTimedWaitAndPop 100]))
      | (Some blocks, w1) =>
          let c1 := mkConfig (self c) w1 (trace c ++ [EvTimedWaitAndPop 100]) in
          forward_loop fuel (b_progress (apply_blocks (chain_fork_view_ (self c)) bp blocks))
                       (after_batch bp blocks c1)
      end
    else (Ret bp, c).
Proof.
  cbn [forward_loop]. unfold bind at 1. unfold observe.
  destruct (forward_continues bp (world c)); [|reflexivity].
  unfold bind at 1. unfold request.
  destruct (timed_wait_and_pop 100 (world c)) as [[blocks|] w1]; [|reflexivity].
  unfold bind. rewrite forward_batch_run. reflexivity.
Qed.

(** the local [block_progress] never goes down along the loop *)
Lemma forward_loop_progress fuel : forall bp c final c1,
  forward_loop fuel bp c = (Ret final, c1) -> bp <= final.
Proof.
  induction fuel as [|fuel IH]; intros bp c final c1 H.
  - discriminate H.
  - rewrite forward_loop_step in H.
    destruct (forward_continues bp (world c)).
    + destruct (timed_wait_and_pop 100 (world c)) as [[blocks|] w1].
      * cbn zeta in H. apply IH in H.
        rewrite apply_blocks_progress in H.
        pose proof (fold_max_ge (map (fun b => BlockHeader.number (BlockEx.header b)) blocks) bp).
        lia.
      * apply IH in H. exact H.
    + injection H as <- _. lia.
Qed.

Lemma forward_and_insert_blocks_split fuel c :
  forward_and_insert_blocks fuel c =
    bind (forward_loop fuel (fst (forward_entry c))) (fun _ => forward_finish)
         (snd (forward_entry c)).
Proof.
  unfold forward_and_insert_blocks, forward_entry.
  unfold bind at 1. unfold request.
  destruct (block_progress (world c)) as [p w1].
  unfold bind at 1. unfold command. cbn.
  rewrite <- app_assoc. reflexivity.
Qed.

Lemma forward_finish_run c :
  forward_finish c =
    (Ret (BlockId.mk (head_height (chain_fork_view_ (self c))) (head_hash (chain_fork_view_ (self c)))),
     mkConfig (self c) (stop_downloading (world c)) (trace c ++ [EvStopDownloading])).
Proof. reflexivity. Qed.

(** C9: when a forward pass completes, the local [block_progress] at the
    end of its loop is at least the value read from the engine at the
    start; [stop_downloading] is then the last call made, and the pass
    returns the height and the hash of the view's head. *)
Theorem forward_pass_progress_and_result fuel c new_height c' :
  forward_and_insert_blocks fuel c = (Ret new_height, c') ->
  let initial := fst (block_progress (world c)) in
  exists final c1,
    forward_loop fuel initial (snd (forward_entry c)) = (Ret final, c1) /\
    initial <= final /\
    trace c' = trace c1 ++ [EvStopDownloading] /\
    world c' = stop_downloading (world c1) /\
    self c' = self c1 /\
    new_height = BlockId.mk (head_height (chain_fork_view_ (self c')))
                            (head_hash (chain_fork_view_ (self c'))).
Proof.
  intros H initial. rewrite forward_and_insert_blocks_split in H.
  assert (Ei : fst (forward_entry c) = initial).
  { unfold forward_entry, initial. destruct (block_progress (world c)). reflexivity. }
  rewrite Ei in H. unfold bind in H.
  destruct (forward_loop fuel initial (snd (forward_entry c))) as [[final | e |] c1] eqn:E;
    try discriminate H.
  rewrite forward_finish_run in H. injection H as <- <-.
  exists final, c1. cbn.
  split; [reflexivity|]. split; [|repeat split].
  eapply forward_loop_progress. exact E.
Qed.

End ForwardFacts.

Section CallFacts.
Context {W V : Type}.
Context {EE : ExecutionClient W} {BE : BlockExchange W} {AC : ActiveComponent W}.
Context {CFV : ChainForkView V}.
Variable to_hex : Hash -> string.

Implicit Types (c : Config W V) (t : list Event).

(** ** Which calls each part of a turn makes *)

Lemma resume_calls c :
  exists t,
    trace (snd (resume c)) = trace c ++ t /\
    forallb resume_call t = true /\
    is_first_sync_ (self (snd (resume c))) = is_first_sync_ (self c).
Proof.
  destruct (last_fork_choice (world c)) as [head_ w1] eqn:E1.
  destruct (block_progress w1) as [bp w2] eqn:E2.
  destruct (N.lt_trichotomy bp (height head_)) as [Hlt | [Heq | Hgt]].
  - rewrite (resume_beyond c head_ w1 bp w2 E1 E2 Hlt). cbn.
    eexists. repeat split.
  - rewrite (resume_at c head_ w1 bp w2 E1 E2 Heq). cbn.
    eexists. repeat split.
  - destruct (get_last_headers 128 w2) as [hs w3] eqn:E3.
    rewrite (resume_below c head_ w1 bp w2 hs w3 E1 E2 Hgt E3). cbn.
    eexists. repeat split.
Qed.

Lemma after_batch_calls bp blocks c :
  exists t,
    trace (after_batch bp blocks c) = trace c ++ t /\
    forallb (forward_call (is_first_sync_ (self c))) t = true /\
    is_first_sync_ (self (after_batch bp blocks c)) = is_first_sync_ (self c).
Proof.
  unfold after_batch. cbn. eexists. split; [reflexivity|]. split; [|reflexivity].
  destruct (b_announce _); cbn; [reflexivity|].
  rewrite eqb_reflx. reflexivity.
Qed.

Lemma forward_loop_calls fuel : forall bp c,
  exists t,
    trace (snd (forward_loop fuel bp c)) = trace c ++ t /\
    forallb (forward_call (is_first_sync_ (self c))) t = true /\
    is_first_sync_ (self (snd (forward_loop fuel bp c))) = is_first_sync_ (self c).
Proof.
  induction fuel as [|fuel IH]; intros bp c.
  - exists []. cbn. rewrite app_nil_r. repeat split.
  - rewrite forward_loop_step.
    destruct (forward_continues bp (world c)).
    + destruct (timed_wait_and_pop 100 (world c)) as [[blocks|] w1].
      * cbn zeta.
        set (c1 := mkConfig (self c) w1 (trace c ++ [EvTimedWaitAndPop 100])).
        destruct (after_batch_calls bp blocks c1) as (t1 & T1 & F1 & S1).
        destruct (IH (b_progress (apply_blocks (chain_fork_view_ (self c)) bp blocks))
                     (after_batch bp blocks c1)) as (t2 & T2 & F2 & S2).
        change (chain_fork_view_ (self c)) with (chain_fork_view_ (self c1)) in T2, F2, S2 |- *.
        exists (EvTimedWaitAndPop 100 :: t1 ++ t2).
        rewrite T2, T1, S2, S1. subst c1. cbn.
        rewrite S1 in F2. cbn in F1, F2.
        split; [rewrite <- !app_assoc; reflexivity|].
        split; [|reflexivity].
        rewrite forallb_app, F1, F2. reflexivity.
      * destruct (IH bp (mkConfig (self c) w1 (trace c ++ [EvTimedWaitAndPop 100])))
          as (t2 & T2 & F2 & S2).
        exists (EvTimedWaitAndPop 100 :: t2).
        rewrite T2, S2. cbn. cbn in F2.
        split; [rewrite <- app_assoc; reflexivity|].
        split; [exact F2 | reflexivity].
    + exists []. cbn. rewrite app_nil_r. repeat split.
Qed.

Lemma forward_calls fuel c :
  exists p t,
    trace (snd (forward_and_insert_blocks fuel c)) =
      trace c ++ EvBlockProgress :: EvDownloadBlocks p kByAnnouncements :: t /\
    forallb (forward_call (is_first_sync_ (self c))) t = true /\
    is_first_sync_ (self (snd (forward_and_insert_blocks fuel c))) = is_first_sync_ (self c).
Proof.
  rewrite forward_and_insert_blocks_split.
  unfold forward_entry. destruct (block_progress (world c)) as [p w1]. cbn [fst snd].
  set (c0 := mkConfig _ _ _).
  destruct (forward_loop_calls fuel p c0) as (t & T & F & S).
  unfold bind.
  destruct (forward_loop fuel p c0) as [[final | e |] c1]; cbn [fst snd] in *;
    subst c0; cbn in T, F, S.
  - rewrite forward_finish_run. cbn.
    exists p, (t ++ [EvStopDownloading]). rewrite T, S.
    split; [rewrite <- !app_assoc; reflexivity|].
    split; [|reflexivity].
    rewrite forallb_app, F. reflexivity.
  - exists p, t. rewrite T, S.
    split; [rewrite <- !app_assoc; reflexivity|]. split; [exact F | reflexivity].
  - exists p, t. rewrite T, S.
    split; [rewrite <- !app_assoc; reflexivity|]. split; [exact F | reflexivity].
Qed.

(** a verify cycle: its calls, whether it completes, and that it leaves
    the driver's members alone *)
Lemma verify_chain_calls new_height c :
  exists t,
    trace (snd (verify_chain to_hex new_height c)) = trace c ++ t /\
    cycle_calls (is_first_sync_ (self c)) (BlockId.hash new_height)
                (returned (fst (verify_chain to_hex new_height c))) t /\
    self (snd (verify_chain to_hex new_height c)) = self c.
Proof.
  unfold verify_chain, send_new_block_hash_announcements, update_bad_headers,
    unwind, get_self, ensure_invariant, request, command, record_call, throw, ret, bind.
  destruct (validate_chain (BlockId.hash new_height) (world c))
    as [[current_head | lvh bad_block bad_headers | lvh missing |] w1]; cbn.
  - destruct (current_head =? BlockId.hash new_height) eqn:E; cbn.
    + apply N.eqb_eq in E. subst current_head.
      eexists. rewrite <- !app_assoc. cbn. split; [reflexivity|]. split; [constructor | reflexivity].
    + eexists. split; [reflexivity|]. split; [constructor | reflexivity].
  - destruct (get_block_num lvh w1) as [[n|] w2]; cbn.
    + destruct (bool_decide (bad_headers = ∅)); cbn.
      * eexists. rewrite <- !app_assoc. cbn. split; [reflexivity|]. split; [constructor | reflexivity].
      * eexists. rewrite <- !app_assoc. cbn. split; [reflexivity|]. split; [constructor | reflexivity].
    + eexists. rewrite <- !app_assoc. cbn. split; [reflexivity|]. split; [constructor | reflexivity].
  - eexists. split; [reflexivity|]. split; [constructor | reflexivity].
  - eexists. split; [reflexivity|]. split; [constructor | reflexivity].
Qed.

(** a verify cycle completes exactly when it has called
    [update_fork_choice] *)
Lemma verify_chain_completes_iff_fork_choice_updated new_height c :
  let r := verify_chain to_hex new_height c in
  fst r = Ret tt <-> exists h, In (EvUpdateForkChoice h) (calls_since c (snd r)).
Proof.
  intros r. subst r.
  destruct (verify_chain_calls new_height c) as (t & T & C & _).
  rewrite (calls_since_app _ _ _ T).
  destruct (fst (verify_chain to_hex new_height c)) as [[] | e |]; cbn in C.
  - split; [intros _ | reflexivity].
    inversion C; subst; eexists; cbn; eauto 6.
  - split; [discriminate|]. intros [h Hin].
    inversion C; subst; cbn in Hin; intuition discriminate.
  - split; [discriminate|]. intros [h Hin].
    inversion C; subst; cbn in Hin; intuition discriminate.
Qed.

Lemma after_pass_zero isu new_height c :
  BlockId.number new_height = 0 -> after_pass to_hex isu new_height c = (Ret false, c).
Proof. intros E. unfold after_pass. rewrite E. reflexivity. Qed.

(** past a pass that returned a height other than 0, the turn is the
    verify cycle followed by the assignment of [is_first_sync_] *)
Lemma after_pass_verify isu new_height c :
  BlockId.number new_height <> 0 ->
  let r := verify_chain to_hex new_height c in
  after_pass to_hex isu new_height c =
    match fst r with
    | Ret _ =>
        (Ret false,
         mkConfig (mkPoWSync (chain_fork_view_ (self (snd r))) isu) (world (snd r)) (trace (snd r)))
    | Throw e => (Throw e, snd r)
    | OutOfFuel => (OutOfFuel, snd r)
    end.
Proof.
  intros Hn r. subst r. unfold after_pass.
  apply N.eqb_neq in Hn. rewrite Hn.
  unfold bind at 1.
  destruct (verify_chain to_hex new_height c) as [[[] | e |] c1]; reflexivity.
Qed.

Lemma after_pass_calls isu new_height c :
  BlockId.number new_height <> 0 ->
  let r := after_pass to_hex isu new_height c in
  exists t,
    trace (snd r) = trace c ++ t /\
    cycle_calls (is_first_sync_ (self c)) (BlockId.hash new_height) (returned (fst r)) t /\
    is_first_sync_ (self (snd r)) = (if returned (fst r) then isu else is_first_sync_ (self c)) /\
    (returned (fst r) = true -> fst r = Ret false).
Proof.
  intros Hn r. subst r. rewrite (after_pass_verify isu new_height c Hn).
  destruct (verify_chain_calls new_height c) as (t & T & C & S).
  exists t.
  destruct (verify_chain to_hex new_height c) as [[[] | e |] c1]; cbn in *;
    rewrite ?S; repeat split; try assumption; try discriminate.
Qed.

Lemma resume_call_not_validate t h :
  forallb resume_call t = true -> ~ In (EvValidateChain h) t.
Proof.
  intros F Hin. rewrite forallb_forall in F. specialize (F _ Hin). discriminate F.
Qed.

Lemma forward_call_not_validate f t h :
  forallb (forward_call f) t = true -> ~ In (EvValidateChain h) t.
Proof.
  intros F Hin. rewrite forallb_forall in F. specialize (F _ Hin). discriminate F.
Qed.

(** the first turn resumes, the later ones forward *)
Lemma execution_body_forward fuel c :
  execution_body to_hex fuel false c =
    forward_rest to_hex fuel (fst (forward_entry c)) (snd (forward_entry c)).
Proof.
  unfold execution_body, forward_rest. unfold bind at 1.
  rewrite forward_and_insert_blocks_split. reflexivity.
Qed.

Lemma execution_while_step fuel isu c :
  execution_while to_hex (S fuel) isu c =
    if is_stopping (world c) then (Ret tt, c)
    else bind (execution_body to_hex fuel isu) (execution_while to_hex fuel) c.
Proof.
  cbn [execution_while]. unfold bind at 1. unfold observe.
  destruct (is_stopping (world c)); reflexivity.
Qed.

(** C8: when the pass of a turn ([resume] or the forward pass) returns
    height 0, the turn ends there: no [validate_chain] call is made in it,
    and unless the driver is asked to stop the next turn is a forward
    pass. *)
Theorem zero_height_skips_verification fuel (isu : bool) c new_height c1 :
  (if isu then resume else forward_and_insert_blocks (S fuel)) c = (Ret new_height, c1) ->
  BlockId.number new_height = 0 ->
  execution_body to_hex (S fuel) isu c = (Ret false, c1) /\
  (forall h, ~ In (EvValidateChain h) (calls_since c c1)) /\
  (is_stopping (world c) = false -> is_stopping (world c1) = false ->
     execution_while to_hex (S (S fuel)) isu c =
       bind (bind (forward_and_insert_blocks fuel) (after_pass to_hex false))
            (execution_while to_hex fuel) c1).
Proof.
  intros Hpass Hzero.
  assert (Hbody : execution_body to_hex (S fuel) isu c = (Ret false, c1)).
  { unfold execution_body, bind. rewrite Hpass. apply after_pass_zero. exact Hzero. }
  split; [exact Hbody|]. split.
  - intros h. destruct isu.
    + destruct (resume_calls c) as (t & T & F & _). rewrite Hpass in T. cbn in T.
      rewrite (calls_since_app _ _ _ T). apply resume_call_not_validate. exact F.
    + destruct (forward_calls (S fuel) c) as (p & t & T & F & _). rewrite Hpass in T. cbn in T.
      rewrite (calls_since_app _ _ _ T).
      intros [H | [H | H]]; try discriminate H.
      revert H. apply forward_call_not_validate with (f := is_first_sync_ (self c)). exact F.
  - intros Hs Hs1.
    rewrite execution_while_step, Hs. unfold bind at 1. rewrite Hbody.
    rewrite execution_while_step, Hs1. reflexivity.
Qed.

(** the forward loop returns at once when the driver is asked to stop *)
Lemma forward_loop_stopping fuel bp c :
  is_stopping (world c) = true -> forward_loop (S fuel) bp c = (Ret bp, c).
Proof.
  intros Hs. rewrite forward_loop_step. unfold forward_continues. rewrite Hs. reflexivity.
Qed.

(** a wait that times out with the stop flag raised meanwhile is the last
    one: the loop exits at its next check *)
Lemma forward_loop_stop_in_wait fuel bp c w1 :
  forward_continues bp (world c) = true ->
  timed_wait_and_pop 100 (world c) = (None, w1) ->
  is_stopping w1 = true ->
  forward_loop (S (S fuel)) bp c =
    (Ret bp, mkConfig (self c) w1 (trace c ++ [EvTimedWaitAndPop 100])).
Proof.
  intros Hc Hw Hs. rewrite forward_loop_step, Hc, Hw.
  apply forward_loop_stopping. exact Hs.
Qed.

(** C2, as the driver has it: when the stop flag is up at the head of the
    forward loop, the loop exits there and the driver calls
    [stop_downloading]; it then finishes the turn: with the view's head at
    height 0 nothing more is called, otherwise [validate_chain] is called
    on the hash of the view's head right after [stop_downloading]; the
    driver loop exits at its own next check of the flag. *)
Theorem stop_seen_at_forward_loop_head fuel bp c :
  is_stopping (world c) = true ->
  let v := chain_fork_view_ (self c) in
  let r := forward_rest to_hex (S fuel) bp c in
  forward_loop (S fuel) bp c = (Ret bp, c) /\
  (head_height v = 0 ->
     r = (Ret false, mkConfig (self c) (stop_downloading (world c)) (trace c ++ [EvStopDownloading]))) /\
  (head_height v <> 0 ->
     exists t, calls_since c (snd r) = EvStopDownloading :: EvValidateChain (head_hash v) :: t) /\
  (forall isu c', is_stopping (world c') = true ->
     execution_while to_hex (S fuel) isu c' = (Ret tt, c')).
Proof.
  intros Hs v r. subst r.
  pose proof (forward_loop_stopping fuel bp c Hs) as Hloop.
  split; [exact Hloop|].
  set (new_height := BlockId.mk (head_height v) (head_hash v)).
  set (c1 := mkConfig (self c) (stop_downloading (world c)) (trace c ++ [EvStopDownloading])).
  assert (E : forward_rest to_hex (S fuel) bp c = after_pass to_hex false new_height c1).
  { unfold forward_rest. unfold bind at 1. unfold bind at 1.
    rewrite Hloop, forward_finish_run. reflexivity. }
  rewrite E. split; [|split].
  - intros Hz. apply after_pass_zero. exact Hz.
  - intros Hnz.
    destruct (after_pass_calls false new_height c1 Hnz) as (t & T & C & _).
    assert (exists t', t = EvValidateChain (head_hash v) :: t') as [t' ->].
    { inversion C; subst; eexists; reflexivity. }
    exists t'. apply calls_since_app.
    etransitivity; [exact T|]. subst c1. cbn. rewrite <- app_assoc. reflexivity.
  - intros isu c' Hs'. rewrite execution_while_step, Hs'. reflexivity.
Qed.

End CallFacts.

(** ** The [is_first_sync] flag *)

Lemma watch_all_app cr m t1 t2 :
  watch_all cr m (t1 ++ t2) = watch_all cr (watch_all cr m t1) t2.
Proof. unfold watch_all. apply fold_left_app. Qed.

(** the calls of [resume] leave the watch as it is *)
Lemma watch_resume_calls cr t : forall m,
  forallb resume_call t = true -> watch_all cr m t = m.
Proof.
  induction t as [|e t IH]; intros m F; [reflexivity|].
  cbn in F. apply andb_prop in F. destruct F as [Fe Ft].
  cbn. destruct e; try discriminate Fe; cbn; apply IH; exact Ft.
Qed.

(** so do the calls of the forward loop, when its announcements carry the
    flag the watch expects *)
Lemma watch_forward_calls cr f t : forall m,
  forallb (forward_call f) t = true ->
  flags_right m = true ->
  f = Nat.eqb (cycles_done m) 0 ->
  watch_all cr m t = m.
Proof.
  induction t as [|e t IH]; intros m F Hr Hf; [reflexivity|].
  cbn in F. apply andb_prop in F. destruct F as [Fe Ft].
  cbn. destruct e as [| | | | | | | | | | |msg|]; try discriminate Fe; cbn;
    try (apply IH; assumption).
  destruct msg as [bs f' | |]; try discriminate Fe. cbn in Fe.
  apply eqb_prop in Fe. subst f'.
  assert (E : mkWatch (forwarded m) (cycles_done m)
                      (flags_right m && eqb f (Nat.eqb (cycles_done m) 0)) = m).
  { destruct m as [fw cd fr]. cbn in *. subst. rewrite eqb_reflx. reflexivity. }
  rewrite E. apply IH; assumption.
Qed.

(** a verify cycle moves the watch by one completed cycle when it completes
    after a forward pass began, and leaves it as it is otherwise *)
Lemma watch_cycle_calls f h done t m :
  cycle_calls f h done t ->
  flags_right m = true ->
  f = Nat.eqb (cycles_done m) 0 ->
  (forwarded m = false -> cycles_done m = 0%nat) ->
  watch_all false m t =
    if done && forwarded m then mkWatch true (S (cycles_done m)) true else m.
Proof.
  intros C Hr Hf H0. destruct m as [fw cd fr]. cbn in *. subst fr f.
  destruct fw.
  - inversion C; subst; cbn; try reflexivity.
    destruct cd; reflexivity.
  - specialize (H0 eq_refl). subst cd. inversion C; subst; cbn; reflexivity.
Qed.

Section FirstSyncFacts.
Context {W V : Type}.
Context {EE : ExecutionClient W} {BE : BlockExchange W} {AC : ActiveComponent W}.
Context {CFV : ChainForkView V}.
Variable to_hex : Hash -> string.

Implicit Types (c : Config W V) (t : list Event).

(** one turn of the driver loop keeps the run on track *)
Lemma execution_body_on_track fuel isu c :
  on_track isu c ->
  let r := execution_body to_hex fuel isu c in
  flags_right (watch_all false watch_start (trace (snd r))) = true /\
  (forall isu', fst r = Ret isu' -> on_track isu' (snd r)).
Proof.
  intros (Hr & Hf & H0 & Hs) r. subst r.
  set (m := watch_all false watch_start (trace c)) in *.
  assert (Hpass : exists c1 o,
             (if isu then resume else forward_and_insert_blocks fuel) c = (o, c1) /\
             is_first_sync_ (self c1) = is_first_sync_ (self c) /\
             watch_all false watch_start (trace c1) =
               (if isu then m else mkWatch true (cycles_done m) true)).
  { destruct isu.
    - destruct (resume_calls c) as (t & T & F & S).
      destruct (resume c) as [o c1]. cbn in T, S. exists c1, o.
      split; [reflexivity|]. split; [exact S|].
      rewrite T, watch_all_app. fold m. apply watch_resume_calls. exact F.
    - destruct (forward_calls fuel c) as (p & t & T & F & S).
      destruct (forward_and_insert_blocks fuel c) as [o c1]. cbn in T, S. exists c1, o.
      split; [reflexivity|]. split; [exact S|].
      rewrite T, watch_all_app. fold m. cbn. rewrite Hr.
      apply (watch_forward_calls false (is_first_sync_ (self c))).
      + exact F.
      + reflexivity.
      + exact Hf. }
  destruct Hpass as (c1 & o & Epass & S1 & M1).
  assert (Ebody : execution_body to_hex fuel isu c =
                  match o with
                  | Ret new_height => after_pass to_hex isu new_height c1
                  | Throw e => (Throw e, c1)
                  | OutOfFuel => (OutOfFuel, c1)
                  end).
  { unfold execution_body, bind. rewrite Epass. destruct o; reflexivity. }
  rewrite Ebody. clear Ebody.
  set (m1 := if isu then m else mkWatch true (cycles_done m) true) in *.
  assert (Hr1 : flags_right m1 = true) by (subst m1; destruct isu; [exact Hr | reflexivity]).
  assert (Hc1 : cycles_done m1 = cycles_done m) by (subst m1; destruct isu; reflexivity).
  assert (Hw1 : forwarded m1 = negb isu).
  { subst m1. destruct isu; [apply Hs; reflexivity | reflexivity]. }
  assert (H01 : forwarded m1 = false -> cycles_done m1 = 0%nat).
  { rewrite Hc1, Hw1. destruct isu; [intros _ | discriminate].
    apply H0. apply Hs. reflexivity. }
  assert (T1 : on_track false c1).
  { unfold on_track. rewrite M1, S1, Hc1. repeat split; try assumption.
    - rewrite <- Hc1. exact H01.
    - discriminate. }
  destruct o as [new_height | e |]; cbv beta iota;
    [| cbn [fst snd]; split; [rewrite M1; exact Hr1 | intros isu' H; discriminate H]
     | cbn [fst snd]; split; [rewrite M1; exact Hr1 | intros isu' H; discriminate H]].
  destruct (N.eq_dec (BlockId.number new_height) 0) as [Hz | Hnz].
  - rewrite (after_pass_zero to_hex isu new_height c1 Hz). cbn.
    split; [rewrite M1; exact Hr1|]. intros isu' [= <-]. exact T1.
  - destruct (after_pass_calls to_hex isu new_height c1 Hnz) as (t & T & C & Sf & R).
    assert (M2 : watch_all false watch_start (trace (snd (after_pass to_hex isu new_height c1))) =
                 if returned (fst (after_pass to_hex isu new_height c1)) && forwarded m1
                 then mkWatch true (S (cycles_done m1)) true else m1).
    { rewrite T, watch_all_app, M1.
      apply (watch_cycle_calls (is_first_sync_ (self c1)) (BlockId.hash new_height)).
      - exact C.
      - exact Hr1.
      - rewrite S1, Hc1. exact Hf.
      - exact H01. }
    split.
    + rewrite M2. destruct (_ && _); [reflexivity | exact Hr1].
    + intros isu' Hret. rewrite Hret in M2, Sf, R. cbn in M2, Sf.
      specialize (R eq_refl). injection R as ->.
      unfold on_track. rewrite M2, Sf, Hw1. destruct isu; cbn.
      * repeat split; try assumption; try discriminate.
        rewrite (H01 ltac:(rewrite Hw1; reflexivity)). reflexivity.
      * repeat split; discriminate.
Qed.

Lemma execution_while_on_track fuel : forall isu c,
  on_track isu c ->
  flags_right (watch_all false watch_start (trace (snd (execution_while to_hex fuel isu c)))) = true.
Proof.
  induction fuel as [|fuel IH]; intros isu c T.
  - cbn. apply T.
  - rewrite execution_while_step.
    destruct (is_stopping (world c)); [apply T|].
    destruct (execution_body_on_track fuel isu c T) as [Hr Hnext].
    unfold bind.
    destruct (execution_body to_hex fuel isu c) as [[isu' | e |] c1]; cbn in Hr, Hnext.
    + apply IH. apply Hnext. reflexivity.
    + exact Hr.
    + exact Hr.
Qed.

(** C1, as the driver has it: along every run of the driver loop, whatever
    the outside does and wherever the run stands (ended, thrown, or still
    going when the fuel is spent), an announcement carries
    [is_first_sync = true] exactly when it is made no later than the
    first completed verify cycle that follows a forward pass; the verify
    cycle of [resume] does not end the first sync. *)
Theorem first_sync_flag_until_first_forward_cycle fuel (w : W) :
  first_sync_until_first_forward_cycle
    (trace (snd (execution_loop to_hex fuel (start w)))) = true.
Proof.
  unfold first_sync_until_first_forward_cycle, execution_loop.
  unfold bind at 1. unfold request.
  destruct (get_last_headers 65536 (world (start w))) as [hs w1].
  unfold bind at 1. unfold command. cbn [self world trace start app].
  apply execution_while_on_track.
  unfold on_track. cbn. repeat split.
Qed.

End FirstSyncFacts.

Section PassFacts.
Context {W V : Type}.
Context {EE : ExecutionClient W} {BE : BlockExchange W} {AC : ActiveComponent W}.
Context {CFV : ChainForkView V}.
Variable to_hex : Hash -> string.

Implicit Types (c : Config W V) (t : list Event) (v : V) (blocks : list BlockEx.t).

(** ** The forward pass as a whole *)

Lemma inserted_blocks_app t1 t2 :
  inserted_blocks (t1 ++ t2) = inserted_blocks t1 ++ inserted_blocks t2.
Proof. unfold inserted_blocks. apply flat_map_app. Qed.

Lemma add_headers_app hs1 hs2 v :
  add_headers (hs1 ++ hs2) v = add_headers hs2 (add_headers hs1 v).
Proof. unfold add_headers. apply fold_left_app. Qed.

Lemma plain_headers blocks :
  block_headers (to_plain_blocks blocks) = map BlockEx.header blocks.
Proof.
  unfold block_headers, to_plain_blocks. rewrite map_map. reflexivity.
Qed.

Lemma plain_numbers blocks :
  block_numbers (to_plain_blocks blocks) =
    map (fun b => BlockHeader.number (BlockEx.header b)) blocks.
Proof.
  unfold block_numbers, to_plain_blocks. rewrite map_map. reflexivity.
Qed.

Lemma plain_filter_sublist (p : BlockEx.t -> bool) blocks :
  sublist (to_plain_blocks (List.filter p blocks)) (to_plain_blocks blocks).
Proof.
  induction blocks as [|b blocks IH]; cbn.
  - constructor.
  - destruct (p b); cbn.
    + apply sublist_skip. exact IH.
    + apply sublist_cons. exact IH.
Qed.

Lemma filter_all_true {A} (p : A -> bool) (l : list A) :
  Forall (fun x => p x = true) (List.filter p l).
Proof.
  apply Forall_forall. intros x Hin. apply list_elem_of_In in Hin.
  apply List.filter_In in Hin. apply Hin.
Qed.

(** the calls for one batch *)
Lemma after_batch_turn bp blocks c :
  exists tb,
    trace (after_batch bp blocks c) = trace c ++ tb /\
    batch_calls (is_first_sync_ (self c)) tb /\
    inserted_blocks tb = to_plain_blocks blocks.
Proof.
  unfold after_batch. cbn.
  pose proof (apply_blocks_announce (chain_fork_view_ (self c)) bp blocks) as Ha.
  destruct (b_announce (apply_blocks (chain_fork_view_ (self c)) bp blocks)) as [|a l] eqn:E.
  - eexists. split; [reflexivity|]. split; [constructor|].
    cbn. apply app_nil_r.
  - eexists. split; [reflexivity|]. split.
    + unfold announced. constructor.
      * rewrite <- Ha. discriminate.
      * apply Forall_forall. intros b' Hin. apply list_elem_of_In in Hin.
        unfold load_all in Hin. apply in_map_iff in Hin. destruct Hin as (b & <- & Hin).
        rewrite load_flag. apply List.filter_In in Hin. apply Hin.
      * rewrite load_all_plain. apply plain_filter_sublist.
    + cbn. apply app_nil_r.
Qed.

(** The forward loop, whatever its fuel: its calls go turn by turn; the view
    has had the headers of the inserted blocks added, in the order they were
    inserted; the loop does not throw; and when it returns, it returns the
    maximum of the block progress it started with and the numbers of the
    inserted blocks, in a state where its condition is false. *)
Lemma forward_loop_summary fuel : forall bp c,
  let r := forward_loop fuel bp c in
  exists t,
    trace (snd r) = trace c ++ t /\
    loop_turns (is_first_sync_ (self c)) t /\
    chain_fork_view_ (self (snd r)) =
      add_headers (block_headers (inserted_blocks t)) (chain_fork_view_ (self c)) /\
    is_first_sync_ (self (snd r)) = is_first_sync_ (self c) /\
    ending (fst r) <> Threw /\
    (forall final, fst r = Ret final ->
       final = fold_left N.max (block_numbers (inserted_blocks t)) bp /\
       forward_continues final (world (snd r)) = false).
Proof.
  induction fuel as [|fuel IH]; intros bp c r; subst r.
  - exists []. cbn. rewrite app_nil_r.
    repeat split; try constructor; try discriminate.
  - rewrite forward_loop_step.
    destruct (forward_continues bp (world c)) eqn:Hc.
    + destruct (timed_wait_and_pop 100 (world c)) as [[blocks|] w1].
      * cbn zeta.
        set (c1 := mkConfig (self c) w1 (trace c ++ [EvTimedWaitAndPop 100])).
        destruct (after_batch_turn bp blocks c1) as (tb & Tb & Bb & Ib).
        set (bp' := b_progress (apply_blocks (chain_fork_view_ (self c)) bp blocks)).
        destruct (IH bp' (after_batch bp blocks c1)) as (t & T & L & Hv & Hf & Hn & Hr).
        exists (EvTimedWaitAndPop 100 :: tb ++ t).
        split; [|split; [|split; [|split; [|split]]]].
        -- rewrite T, Tb. subst c1. cbn. rewrite <- !app_assoc. reflexivity.
        -- apply loop_batch; assumption.
        -- rewrite Hv. cbn [inserted_blocks flat_map app].
           fold (inserted_blocks (tb ++ t)).
           rewrite inserted_blocks_app, Ib. unfold block_headers at 2.
           rewrite map_app. fold (block_headers (to_plain_blocks blocks)).
           fold (block_headers (inserted_blocks t)).
           rewrite add_headers_app, plain_headers.
           f_equal. unfold after_batch. cbn. apply apply_blocks_view.
        -- rewrite Hf. reflexivity.
        -- exact Hn.
        -- intros final Hret. destruct (Hr final Hret) as [Hmax Hstop].
           split; [|exact Hstop].
           rewrite Hmax. cbn [inserted_blocks flat_map app].
           fold (inserted_blocks (tb ++ t)).
           rewrite inserted_blocks_app, Ib. unfold block_numbers at 2.
           rewrite map_app. fold (block_numbers (to_plain_blocks blocks)).
           fold (block_numbers (inserted_blocks t)).
           rewrite fold_left_app, plain_numbers.
           f_equal. subst bp'. apply apply_blocks_progress.
      * set (c1 := mkConfig (self c) w1 (trace c ++ [EvTimedWaitAndPop 100])).
        destruct (IH bp c1) as (t & T & L & Hv & Hf & Hn & Hr).
        exists (EvTimedWaitAndPop 100 :: t).
        split; [|split; [|split; [|split; [|split]]]].
        -- rewrite T. subst c1. cbn. rewrite <- !app_assoc. reflexivity.
        -- apply loop_timeout. exact L.
        -- rewrite Hv. reflexivity.
        -- rewrite Hf. reflexivity.
        -- exact Hn.
        -- exact Hr.
    + exists []. cbn. rewrite app_nil_r.
      repeat split; try constructor; try discriminate.
      * injection H as <-. reflexivity.
      * injection H as <-. exact Hc.
Qed.

End PassFacts.

Section ShapeFacts.
Context {W V : Type}.
Context {EE : ExecutionClient W} {BE : BlockExchange W} {AC : ActiveComponent W}.
Context {CFV : ChainForkView V}.
Variable to_hex : Hash -> string.

Implicit Types (c : Config W V) (t : list Event).

(** ** The shape of a run *)

Lemma resume_shape c :
  exists t,
    trace (snd (resume c)) = trace c ++ t /\
    pass_calls true (is_first_sync_ (self c)) (ending (fst (resume c))) t /\
    is_first_sync_ (self (snd (resume c))) = is_first_sync_ (self c).
Proof.
  destruct (last_fork_choice (world c)) as [head_ w1] eqn:E1.
  destruct (block_progress w1) as [bp w2] eqn:E2.
  destruct (N.lt_trichotomy bp (height head_)) as [Hlt | [Heq | Hgt]].
  - rewrite (resume_beyond c head_ w1 bp w2 E1 E2 Hlt). cbn.
    eexists. split; [reflexivity|]. split; [constructor | reflexivity].
  - rewrite (resume_at c head_ w1 bp w2 E1 E2 Heq). cbn.
    eexists. split; [reflexivity|]. split; [constructor | reflexivity].
  - destruct (get_last_headers 128 w2) as [hs w3] eqn:E3.
    rewrite (resume_below c head_ w1 bp w2 hs w3 E1 E2 Hgt E3). cbn.
    eexists. split; [reflexivity|]. split; [constructor | reflexivity].
Qed.

Lemma forward_shape fuel c :
  exists t,
    trace (snd (forward_and_insert_blocks fuel c)) = trace c ++ t /\
    pass_calls false (is_first_sync_ (self c))
               (ending (fst (forward_and_insert_blocks fuel c))) t /\
    is_first_sync_ (self (snd (forward_and_insert_blocks fuel c))) = is_first_sync_ (self c).
Proof.
  rewrite forward_and_insert_blocks_split.
  unfold forward_entry. destruct (block_progress (world c)) as [p w1]. cbn [fst snd].
  set (c0 := mkConfig _ _ _).
  destruct (forward_loop_summary fuel p c0) as (t & T & L & _ & Hf & Hn & _).
  unfold bind.
  destruct (forward_loop fuel p c0) as [[final | e |] c1]; cbn [fst snd] in *;
    subst c0; cbn in T, L, Hf.
  - rewrite forward_finish_run. cbn. rewrite T.
    exists (EvBlockProgress :: EvDownloadBlocks p kByAnnouncements :: t ++ [EvStopDownloading]).
    split; [rewrite <- !app_assoc; reflexivity|].
    split; [constructor; exact L | exact Hf].
  - contradiction Hn. reflexivity.
  - rewrite T.
    exists (EvBlockProgress :: EvDownloadBlocks p kByAnnouncements :: t).
    split; [rewrite <- !app_assoc; reflexivity|].
    split; [constructor; exact L | exact Hf].
Qed.

(** a verify cycle returns or throws: it has no loop to starve in *)
Lemma after_pass_ending isu new_height c :
  ending (fst (after_pass to_hex isu new_height c)) =
    if returned (fst (after_pass to_hex isu new_height c)) then Completed else Threw.
Proof.
  unfold after_pass, verify_chain, send_new_block_hash_announcements, update_bad_headers,
    unwind, put_is_first_sync, put_self, get_self, ensure_invariant,
    request, command, record_call, throw, ret, bind.
  destruct (BlockId.number new_height =? 0); [reflexivity|].
  destruct (validate_chain (BlockId.hash new_height) (world c))
    as [[current_head | lvh bad_block bad_headers | lvh missing |] w1]; cbn.
  - destruct (current_head =? BlockId.hash new_height); reflexivity.
  - destruct (get_block_num lvh w1) as [[n|] w2]; cbn; [|reflexivity].
    destruct (bool_decide (bad_headers = ∅)); reflexivity.
  - reflexivity.
  - reflexivity.
Qed.

Lemma execution_while_shape fuel : forall isu c,
  exists t,
    trace (snd (execution_while to_hex fuel isu c)) = trace c ++ t /\
    run_turns isu (is_first_sync_ (self c))
              (ending (fst (execution_while to_hex fuel isu c))) t.
Proof.
  induction fuel as [|fuel IH]; intros isu c.
  - exists []. cbn. rewrite app_nil_r. split; [reflexivity | constructor].
  - rewrite execution_while_step.
    destruct (is_stopping (world c)).
    { exists []. cbn. rewrite app_nil_r. split; [reflexivity | constructor]. }
    assert (Hpass : exists tp,
               trace (snd ((if isu then resume else forward_and_insert_blocks fuel) c)) =
                 trace c ++ tp /\
               pass_calls isu (is_first_sync_ (self c))
                 (ending (fst ((if isu then resume else forward_and_insert_blocks fuel) c))) tp /\
               is_first_sync_ (self (snd ((if isu then resume
                                           else forward_and_insert_blocks fuel) c))) =
                 is_first_sync_ (self c)).
    { destruct isu; [apply resume_shape | apply forward_shape]. }
    destruct Hpass as (tp & Tp & Pp & Fp).
    unfold bind, execution_body, bind.
    destruct ((if isu then resume else forward_and_insert_blocks fuel) c)
      as [[new_height | e |] c1]; cbn [fst snd ending] in *.
    + destruct (N.eq_dec (BlockId.number new_height) 0) as [Hz | Hnz].
      * rewrite (after_pass_zero to_hex isu new_height c1 Hz).
        destruct (IH false c1) as (t & T & R). rewrite Fp in R.
        exists (tp ++ t). rewrite T, Tp, <- app_assoc. split; [reflexivity|].
        eapply run_skip; eassumption.
      * destruct (after_pass_calls to_hex isu new_height c1 Hnz) as (tc & Tc & C & Fc & Hret).
        pose proof (after_pass_ending isu new_height c1) as He.
        rewrite Fp in C.
        destruct (after_pass to_hex isu new_height c1) as [[b | e |] c2];
          cbn [fst snd ending returned] in *; try discriminate He.
        -- destruct (IH b c2) as (t & T & R). rewrite Fc in R.
           specialize (Hret eq_refl). injection Hret as ->.
           exists (tp ++ tc ++ t). rewrite T, Tc, Tp, <- !app_assoc. split; [reflexivity|].
           eapply run_cycle; eassumption.
        -- exists (tp ++ tc). rewrite Tc, Tp, <- !app_assoc. split; [reflexivity|].
           eapply run_fatal; eassumption.
    + exists tp. split; [exact Tp|]. apply run_pass_open; [discriminate | exact Pp].
    + exists tp. split; [exact Tp|]. apply run_pass_open; [discriminate | exact Pp].
Qed.

(** a run is the two startup calls and then the driver loop *)
Lemma execution_loop_startup fuel (w : W) :
  execution_loop to_hex fuel (start w) =
    execution_while to_hex fuel true
      (mkConfig new_PoWSync
         (initial_state (fst (get_last_headers 65536 w)) (snd (get_last_headers 65536 w)))
         [EvGetLastHeaders 65536; EvInitialState (fst (get_last_headers 65536 w))]).
Proof.
  unfold execution_loop, bind, request, command. cbn [world start self trace].
  destruct (get_last_headers 65536 w) as [hs w1]. reflexivity.
Qed.

(** every run of the driver: the two startup calls, then the turns *)
Lemma execution_loop_shape fuel (w : W) :
  let r := execution_loop to_hex fuel (start w) in
  exists t,
    trace (snd r) =
      EvGetLastHeaders 65536 :: EvInitialState (fst (get_last_headers 65536 w)) :: t /\
    run_turns true true (ending (fst r)) t.
Proof.
  intros r. subst r. rewrite execution_loop_startup.
  destruct (execution_while_shape fuel true
              (mkConfig new_PoWSync
                 (initial_state (fst (get_last_headers 65536 w)) (snd (get_last_headers 65536 w)))
                 [EvGetLastHeaders 65536; EvInitialState (fst (get_last_headers 65536 w))]))
    as (t & T & R).
  exists t. split; [rewrite T; reflexivity | exact R].
Qed.

End ShapeFacts.

Section PassProperties.
Context {W V : Type}.
Context {EE : ExecutionClient W} {BE : BlockExchange W} {AC : ActiveComponent W}.
Context {CFV : ChainForkView V}.
Variable to_hex : Hash -> string.

Implicit Types (c : Config W V) (t : list Event) (v : V).

(** ** Properties of [resume] and of the forward pass *)

Lemma fold_max_is_member (ns : list N) : forall bp,
  fold_left N.max ns bp = bp \/ In (fold_left N.max ns bp) ns.
Proof.
  induction ns as [|n ns IH]; intros bp; cbn; [left; reflexivity|].
  destruct (IH (N.max bp n)) as [E | Hin].
  - rewrite E. destruct (N.max_spec bp n) as [[_ ->] | [_ ->]]; [right; left | left]; reflexivity.
  - right. right. exact Hin.
Qed.

Lemma loop_turns_without_insert f t :
  loop_turns f t ->
  (forall ps, ~ In (EvInsertBlocks ps) t) ->
  Forall (fun e => e = EvTimedWaitAndPop 100) t.
Proof.
  induction 1 as [| t L IH | tb t B L IH]; intros Hno.
  - constructor.
  - constructor; [reflexivity|]. apply IH. intros ps Hin. apply (Hno ps). right. exact Hin.
  - exfalso. destruct B as [ps | ps bs _ _ _]; apply (Hno ps); right; left; reflexivity.
Qed.

(** X1: when the forward loop returns, the driver has been asked to stop or
    the exchange is in sync at the very block progress the loop returns. *)
Theorem forward_loop_exit_condition fuel bp c final c1 :
  forward_loop fuel bp c = (Ret final, c1) ->
  is_stopping (world c1) = true \/
  (in_sync (world c1) = true /\ final = current_height (world c1)).
Proof.
  intros H.
  destruct (forward_loop_summary fuel bp c) as (t & _ & _ & _ & _ & _ & Hr).
  rewrite H in Hr. cbn in Hr.
  destruct (Hr final eq_refl) as [_ Hstop].
  unfold forward_continues in Hstop.
  destruct (is_stopping (world c1)); [left; reflexivity|].
  right. cbn in Hstop. apply negb_false_iff in Hstop.
  apply andb_prop in Hstop. destruct Hstop as [Hs He].
  split; [exact Hs | apply N.eqb_eq; exact He].
Qed.

(** X2: the block progress the forward loop returns is the maximum of the
    block progress it started with and the numbers of all the blocks it
    handed to [insert_blocks]: no inserted block is above it, and it is the
    starting value or the number of an inserted block. *)
Theorem forward_loop_progress_is_max fuel bp c final c1 :
  forward_loop fuel bp c = (Ret final, c1) ->
  let numbers := block_numbers (inserted_blocks (calls_since c c1)) in
  final = fold_left N.max numbers bp /\
  bp <= final /\
  (forall n, In n numbers -> n <= final) /\
  (final = bp \/ In final numbers).
Proof.
  intros H numbers.
  destruct (forward_loop_summary fuel bp c) as (t & T & _ & _ & _ & _ & Hr).
  rewrite H in T, Hr. cbn in T, Hr.
  destruct (Hr final eq_refl) as [Hmax _].
  subst numbers. rewrite (calls_since_app _ _ _ T), <- Hmax.
  split; [reflexivity|]. rewrite Hmax.
  split; [apply fold_max_ge|].
  split; [intros n Hin; apply fold_max_bounds; exact Hin|].
  apply fold_max_is_member.
Qed.

(** X3: whatever the forward pass does and however it ends, the view it
    leaves is the view it found with the headers of the blocks handed to
    [insert_blocks] added, in the order they were inserted, and nothing
    else. *)
Theorem forward_pass_view_follows_inserts fuel c :
  let r := forward_and_insert_blocks fuel c in
  chain_fork_view_ (self (snd r)) =
    add_headers (block_headers (inserted_blocks (calls_since c (snd r))))
                (chain_fork_view_ (self c)).
Proof.
  intros r. subst r. rewrite forward_and_insert_blocks_split.
  unfold forward_entry. destruct (block_progress (world c)) as [p w1]. cbn [fst snd].
  set (c0 := mkConfig _ _ _).
  destruct (forward_loop_summary fuel p c0) as (t & T & _ & Hv & _ & _ & _).
  assert (Hc : forall c1, trace c1 = trace c0 ++ t ->
             calls_since c c1 = EvBlockProgress :: EvDownloadBlocks p kByAnnouncements :: t).
  { intros c1 E. apply calls_since_app. rewrite E. subst c0. cbn.
    rewrite <- app_assoc. reflexivity. }
  unfold bind.
  destruct (forward_loop fuel p c0) as [[final | e |] c1]; cbn [fst snd] in *.
  - rewrite forward_finish_run. cbn [snd self].
    erewrite calls_since_app.
    2:{ cbn [trace]. rewrite T. subst c0. cbn [trace]. rewrite <- !app_assoc. reflexivity. }
    rewrite Hv. subst c0. cbn.
    rewrite !inserted_blocks_app. cbn. rewrite !app_nil_r. reflexivity.
  - rewrite (Hc c1 T), Hv. reflexivity.
  - rewrite (Hc c1 T), Hv. reflexivity.
Qed.

(** what a pass returns is the head of the view it leaves *)
Lemma forward_result_is_view_head fuel c new_height c1 :
  forward_and_insert_blocks fuel c = (Ret new_height, c1) ->
  new_height = BlockId.mk (head_height (chain_fork_view_ (self c1)))
                          (head_hash (chain_fork_view_ (self c1))).
Proof.
  intros H. rewrite forward_and_insert_blocks_split in H. unfold bind in H.
  destruct (forward_loop fuel (fst (forward_entry c)) (snd (forward_entry c)))
    as [[final | e |] c0]; try discriminate H.
  rewrite forward_finish_run in H. injection H as <- <-. reflexivity.
Qed.

Lemma forward_entry_trace c :
  trace (snd (forward_entry c)) =
    trace c ++ [EvBlockProgress;
                EvDownloadBlocks (fst (block_progress (world c))) kByAnnouncements].
Proof. unfold forward_entry. destruct (block_progress (world c)). reflexivity. Qed.

Lemma forward_entry_self c : self (snd (forward_entry c)) = self c.
Proof. unfold forward_entry. destruct (block_progress (world c)). reflexivity. Qed.

Lemma inserted_blocks_none t :
  (forall ps, ~ In (EvInsertBlocks ps) t) -> inserted_blocks t = [].
Proof.
  induction t as [|e t IH]; intros Hno; [reflexivity|].
  unfold inserted_blocks. cbn [flat_map]. fold (inserted_blocks t).
  rewrite IH by (intros ps Hin; apply (Hno ps); right; exact Hin).
  destruct e; try reflexivity. exfalso. apply (Hno blocks). left. reflexivity.
Qed.

(** a forward loop that inserts nothing leaves the view as it is *)
Lemma forward_loop_idle_view fuel bp c :
  (forall ps, ~ In (EvInsertBlocks ps) (calls_since c (snd (forward_loop fuel bp c)))) ->
  chain_fork_view_ (self (snd (forward_loop fuel bp c))) = chain_fork_view_ (self c).
Proof.
  intros Hno.
  destruct (forward_loop_summary fuel bp c) as (t & T & _ & Hv & _).
  rewrite (calls_since_app _ _ _ T) in Hno.
  rewrite Hv, (inserted_blocks_none t Hno). reflexivity.
Qed.

(** X4: a forward pass that completes without having inserted anything has
    changed nothing in the driver and announced nothing: it returns the head
    of the view it started with, after nothing but waits. *)
Theorem forward_pass_without_batch fuel c new_height c' :
  forward_and_insert_blocks fuel c = (Ret new_height, c') ->
  (forall ps, ~ In (EvInsertBlocks ps) (calls_since c c')) ->
  self c' = self c /\
  new_height = BlockId.mk (head_height (chain_fork_view_ (self c)))
                          (head_hash (chain_fork_view_ (self c))) /\
  (forall m, ~ In (EvAccept m) (calls_since c c')) /\
  exists waits,
    Forall (fun e => e = EvTimedWaitAndPop 100) waits /\
    calls_since c c' =
      EvBlockProgress :: EvDownloadBlocks (fst (block_progress (world c))) kByAnnouncements ::
      waits ++ [EvStopDownloading].
Proof.
  intros H Hno.
  rewrite forward_and_insert_blocks_split in H.
  unfold forward_entry in H. destruct (block_progress (world c)) as [p w1]. cbn [fst snd] in *.
  set (c0 := mkConfig _ _ _) in H.
  destruct (forward_loop_summary fuel p c0) as (t & T & L & Hv & Hf & _ & _).
  unfold bind in H.
  destruct (forward_loop fuel p c0) as [[final | e |] c1]; cbn [fst snd] in *;
    try discriminate H.
  rewrite forward_finish_run in H. injection H as <- <-.
  assert (Hcalls : calls_since c (mkConfig (self c1) (stop_downloading (world c1))
                                           (trace c1 ++ [EvStopDownloading])) =
                   EvBlockProgress :: EvDownloadBlocks p kByAnnouncements ::
                   t ++ [EvStopDownloading]).
  { apply calls_since_app. cbn [trace]. rewrite T. subst c0. cbn [trace].
    rewrite <- !app_assoc. reflexivity. }
  rewrite Hcalls in Hno |- *.
  assert (Hw : Forall (fun e => e = EvTimedWaitAndPop 100) t).
  { apply (loop_turns_without_insert _ _ L). intros ps Hin. apply (Hno ps).
    right. right. apply in_or_app. left. exact Hin. }
  assert (Hi : inserted_blocks t = []).
  { clear -Hw. induction Hw as [|e t -> _ IH]; [reflexivity | exact IH]. }
  rewrite Hi in Hv. cbn in Hv. subst c0. cbn in Hv, Hf.
  assert (Hs : self c1 = self c).
  { destruct (self c1), (self c). cbn in *. subst. reflexivity. }
  cbn [self]. rewrite Hs.
  split; [reflexivity|]. split; [reflexivity|]. split.
  - intros m [Hm | [Hm | Hm]]; try discriminate Hm.
    apply in_app_or in Hm. destruct Hm as [Hm | [Hm | []]]; [|discriminate Hm].
    rewrite List.Forall_forall in Hw. specialize (Hw _ Hm). discriminate Hw.
  - exists t. split; [exact Hw | reflexivity].
Qed.

(** X5: [resume] only asks the engine: whatever the answers, it makes the
    two requests for the fork choice and the block progress, at most one
    more for the last 128 headers, and no other call; the flag
    [is_first_sync_] keeps its value. *)
Theorem resume_only_asks_the_engine c :
  let calls := calls_since c (snd (resume c)) in
  (calls = [EvLastForkChoice; EvBlockProgress] \/
   calls = [EvLastForkChoice; EvBlockProgress; EvGetLastHeaders 128]) /\
  (In (EvGetLastHeaders 128) calls <->
     height (fst (last_fork_choice (world c))) <
       fst (block_progress (snd (last_fork_choice (world c))))) /\
  is_first_sync_ (self (snd (resume c))) = is_first_sync_ (self c).
Proof.
  intros calls. subst calls.
  destruct (last_fork_choice (world c)) as [head_ w1] eqn:E1. cbn [fst snd].
  destruct (block_progress w1) as [bp w2] eqn:E2. cbn [fst snd].
  destruct (N.lt_trichotomy bp (height head_)) as [Hlt | [Heq | Hgt]].
  - rewrite (resume_beyond c head_ w1 bp w2 E1 E2 Hlt). cbn [snd self is_first_sync_].
    erewrite calls_since_app by reflexivity.
    split; [left; reflexivity|]. split; [|reflexivity].
    split; [intros [H | [H | []]]; discriminate H | lia].
  - rewrite (resume_at c head_ w1 bp w2 E1 E2 Heq). cbn [snd self is_first_sync_].
    erewrite calls_since_app by reflexivity.
    split; [left; reflexivity|]. split; [|reflexivity].
    split; [intros [H | [H | []]]; discriminate H | lia].
  - destruct (get_last_headers 128 w2) as [hs w3] eqn:E3.
    rewrite (resume_below c head_ w1 bp w2 hs w3 E1 E2 Hgt E3). cbn [snd self is_first_sync_].
    erewrite calls_since_app by reflexivity.
    split; [right; reflexivity|]. split; [|reflexivity].
    split; [intros _; exact Hgt | intros _; right; right; left; reflexivity].
Qed.

End PassProperties.

Section CycleProperties.
Context {W V : Type}.
Context {EE : ExecutionClient W} {BE : BlockExchange W} {AC : ActiveComponent W}.
Context {CFV : ChainForkView V}.
Variable to_hex : Hash -> string.

Implicit Types (c : Config W V) (t : list Event) (v : ValidationResult).

(** ** Properties of the verify cycle *)

Lemma after_pass_undecided isu new_height c v w1 :
  BlockId.number new_height <> 0 ->
  validate_chain (BlockId.hash new_height) (world c) = (v, w1) ->
  decided v = false ->
  after_pass to_hex isu new_height c =
    (Throw (LogicError (undecided_diagnostic to_hex v)),
     mkConfig (self c) w1 (trace c ++ [EvValidateChain (BlockId.hash new_height)])).
Proof.
  intros Hn E Hd.
  unfold after_pass, verify_chain, request, throw, bind.
  apply N.eqb_neq in Hn. rewrite Hn, E.
  destruct v; try discriminate Hd; reflexivity.
Qed.

(** a verify cycle leaves the members of the driver alone, but for the flag
    when it completes *)
Lemma after_pass_self isu new_height c :
  let r := after_pass to_hex isu new_height c in
  chain_fork_view_ (self (snd r)) = chain_fork_view_ (self c) /\
  (returned (fst r) = false -> self (snd r) = self c).
Proof.
  intros r. subst r.
  destruct (N.eq_dec (BlockId.number new_height) 0) as [Hz | Hnz].
  - rewrite (after_pass_zero to_hex isu new_height c Hz). cbn. split; [reflexivity | discriminate].
  - rewrite (after_pass_verify to_hex isu new_height c Hnz).
    destruct (verify_chain_calls to_hex new_height c) as (t & _ & _ & Hs).
    destruct (verify_chain to_hex new_height c) as [[[] | e |] c1]; cbn in *; rewrite Hs;
      split; try reflexivity; discriminate.
Qed.

(** X6: a verdict that is neither [ValidChain] nor [InvalidChain] is fatal:
    the driver throws right after [validate_chain], with a diagnostic that
    names the latest valid head and the missing block for a
    [ValidationError] and "unknown error" otherwise; it has called nothing
    else and changed none of its members. *)
Theorem undecided_verdict_is_fatal isu new_height c v w1 :
  BlockId.number new_height <> 0 ->
  validate_chain (BlockId.hash new_height) (world c) = (v, w1) ->
  (forall current_head, v <> ValidChain current_head) ->
  (forall lvh bad_block bad_headers, v <> InvalidChain lvh bad_block bad_headers) ->
  let r := after_pass to_hex isu new_height c in
  (forall lvh missing, v = ValidationError lvh missing ->
     fst r = Throw (LogicError ("Consensus, validation error, last point=" ++ to_hex lvh ++
                                ", missing block=" ++ to_hex missing))) /\
  (v = UnknownVerdict -> fst r = Throw (LogicError "Consensus, unknown error")) /\
  (exists e, fst r = Throw e) /\
  calls_since c (snd r) = [EvValidateChain (BlockId.hash new_height)] /\
  self (snd r) = self c.
Proof.
  intros Hn E Hv Hi r. subst r.
  assert (Hd : decided v = false).
  { destruct v as [ch | l b s | |]; try reflexivity;
      [contradiction (Hv ch) | contradiction (Hi l b s)]; reflexivity. }
  rewrite (after_pass_undecided isu new_height c v w1 Hn E Hd). cbn [fst snd self].
  split; [intros lvh missing ->; reflexivity|].
  split; [intros ->; reflexivity|].
  split; [eexists; reflexivity|].
  split; [apply calls_since_app; reflexivity | reflexivity].
Qed.

(** X7: a verify cycle that throws has moved nothing: no
    [update_fork_choice], no [unwind], nothing handed to the exchange, and
    the members of the driver, [is_first_sync_] included, as they were. *)
Theorem fatal_cycle_moves_nothing isu new_height c e :
  fst (after_pass to_hex isu new_height c) = Throw e ->
  let calls := calls_since c (snd (after_pass to_hex isu new_height c)) in
  self (snd (after_pass to_hex isu new_height c)) = self c /\
  (forall h, ~ In (EvUpdateForkChoice h) calls) /\
  (forall p bad_block, ~ In (EvUnwind p bad_block) calls) /\
  (forall m, ~ In (EvAccept m) calls).
Proof.
  intros Ht calls. subst calls.
  destruct (N.eq_dec (BlockId.number new_height) 0) as [Hz | Hnz].
  { rewrite (after_pass_zero to_hex isu new_height c Hz) in Ht. discriminate Ht. }
  destruct (after_pass_self isu new_height c) as [_ Hs].
  destruct (after_pass_calls to_hex isu new_height c Hnz) as (t & T & C & _).
  rewrite Ht in C, Hs. cbn in C, Hs.
  rewrite (calls_since_app _ _ _ T).
  split; [apply Hs; reflexivity|].
  inversion C; subst; cbn; repeat split; intros; intuition discriminate.
Qed.

(** X8: the driver moves the engine's fork choice only to a head the engine
    vouched for in that very cycle: the hash it asked to validate, confirmed
    as the current head of a valid chain, or the latest valid head of an
    invalid chain whose block number the engine knows; and it moves it at
    most once per cycle. *)
Theorem fork_choice_moves_to_vouched_head isu new_height c v w1 :
  BlockId.number new_height <> 0 ->
  validate_chain (BlockId.hash new_height) (world c) = (v, w1) ->
  let calls := calls_since c (snd (after_pass to_hex isu new_height c)) in
  (forall h, In (EvUpdateForkChoice h) calls ->
     (v = ValidChain h /\ h = BlockId.hash new_height) \/
     (exists bad_block bad_headers n,
        v = InvalidChain h bad_block bad_headers /\ fst (get_block_num h w1) = Some n)) /\
  (count is_update calls <= 1)%nat.
Proof.
  intros Hn E calls. subst calls.
  destruct v as [ch | lvh bb bads | lvh mb |].
  - destruct (N.eq_dec ch (BlockId.hash new_height)) as [-> | Hne].
    + rewrite (after_pass_valid to_hex isu new_height c w1 Hn E). cbn [snd].
      erewrite calls_since_app by reflexivity. split; [|cbn; lia].
      intros h [H | [H | [H | []]]]; try discriminate H.
      injection H as <-. left. split; reflexivity.
    + rewrite (after_pass_valid_mismatch to_hex isu new_height c ch w1 Hn E Hne). cbn [snd].
      erewrite calls_since_app by reflexivity. split; [|cbn; lia].
      intros h [H | []]. discriminate H.
  - destruct (get_block_num lvh w1) as [[n|] w2] eqn:E2.
    + rewrite (after_pass_invalid to_hex isu new_height c lvh bb bads w1 n w2 Hn E E2). cbn [snd].
      erewrite calls_since_app by reflexivity.
      split.
      * intros h Hin. right. exists bb, bads, n.
        assert (h = lvh) as ->.
        { destruct (bool_decide (bads = ∅)); cbn in Hin;
            repeat (destruct Hin as [Hin | Hin]; [try discriminate Hin|]);
            try contradiction; injection Hin as <-; reflexivity. }
        rewrite E2. split; reflexivity.
      * destruct (bool_decide (bads = ∅)); cbn; lia.
    + rewrite (after_pass_invalid_unknown to_hex isu new_height c lvh bb bads w1 w2 Hn E E2).
      cbn [snd]. erewrite calls_since_app by reflexivity. split; [|cbn; lia].
      intros h [H | [H | []]]; discriminate H.
  - rewrite (after_pass_undecided isu new_height c _ w1 Hn E eq_refl). cbn [snd].
    erewrite calls_since_app by reflexivity. split; [|cbn; lia].
    intros h [H | []]. discriminate H.
  - rewrite (after_pass_undecided isu new_height c _ w1 Hn E eq_refl). cbn [snd].
    erewrite calls_since_app by reflexivity. split; [|cbn; lia].
    intros h [H | []]. discriminate H.
Qed.

(** X9: no verdict changes the fork-choice view: [unwind] does nothing, so
    after an [InvalidChain] verdict the engine's fork choice is moved back
    to the latest valid head while the head of the driver's view stays the
    one that was found invalid. *)
Theorem verify_cycle_keeps_view isu new_height c :
  let r := after_pass to_hex isu new_height c in
  chain_fork_view_ (self (snd r)) = chain_fork_view_ (self c) /\
  (forall lvh bad_block bad_headers w1 n w2,
     BlockId.number new_height <> 0 ->
     validate_chain (BlockId.hash new_height) (world c) =
       (InvalidChain lvh bad_block bad_headers, w1) ->
     get_block_num lvh w1 = (Some n, w2) ->
     In (EvUpdateForkChoice lvh) (calls_since c (snd r)) /\
     head_hash (chain_fork_view_ (self (snd r))) = head_hash (chain_fork_view_ (self c))).
Proof.
  intros r. subst r. split; [apply after_pass_self|].
  intros lvh bb bads w1 n w2 Hn E1 E2.
  split.
  - rewrite (after_pass_invalid to_hex isu new_height c lvh bb bads w1 n w2 Hn E1 E2). cbn [snd].
    erewrite calls_since_app by reflexivity.
    destruct (bool_decide (bads = ∅)); cbn; tauto.
  - f_equal. apply after_pass_self.
Qed.

(** X10: after a verify cycle on the head of the view, a forward pass that
    inserts nothing returns that same head again: without new blocks the
    driver asks the engine to validate the hash it has just had validated,
    whatever the verdict was. *)
Theorem idle_pass_returns_verified_head_again isu fuel c new_height c1 new_height' c2 :
  new_height = BlockId.mk (head_height (chain_fork_view_ (self c)))
                          (head_hash (chain_fork_view_ (self c))) ->
  after_pass to_hex isu new_height c = (Ret false, c1) ->
  forward_and_insert_blocks fuel c1 = (Ret new_height', c2) ->
  (forall ps, ~ In (EvInsertBlocks ps) (calls_since c1 c2)) ->
  new_height' = new_height.
Proof.
  intros Hh Hv Hf Hno.
  rewrite (forward_result_is_view_head fuel c1 new_height' c2 Hf), Hh.
  assert (Hpass : chain_fork_view_ (self c2) = chain_fork_view_ (self c1)).
  { rewrite forward_and_insert_blocks_split in Hf. unfold bind in Hf.
    pose proof (forward_loop_idle_view fuel (fst (forward_entry c1)) (snd (forward_entry c1)))
      as Hidle.
    destruct (forward_loop_summary fuel (fst (forward_entry c1)) (snd (forward_entry c1)))
      as (t & T & _).
    destruct (forward_loop fuel (fst (forward_entry c1)) (snd (forward_entry c1)))
      as [[final | e |] c0]; try discriminate Hf.
    rewrite forward_finish_run in Hf. injection Hf as _ <-. cbn [fst snd self] in *.
    rewrite Hidle.
    - rewrite forward_entry_self. reflexivity.
    - intros ps Hin. apply (Hno ps).
      rewrite (calls_since_app _ _ _ T) in Hin.
      erewrite calls_since_app.
      2:{ cbn [trace]. rewrite T, forward_entry_trace, <- !app_assoc. reflexivity. }
      cbn. right. right. apply in_or_app. left. exact Hin. }
  destruct (after_pass_self isu new_height c) as [Hview _].
  rewrite Hv in Hview. cbn in Hview. rewrite Hpass, Hview. reflexivity.
Qed.

End CycleProperties.

(** ** Watches and counts over the shape of a run *)

Lemma count_app p t1 t2 : count p (t1 ++ t2) = (count p t1 + count p t2)%nat.
Proof. unfold count. rewrite List.filter_app, length_app. reflexivity. Qed.

Lemma download_watch_loop f t : forall st,
  loop_turns f t -> fold_left download_watch t st = st.
Proof.
  intros st L. revert st.
  induction L as [| t L IH | tb t B L IH]; intros [d r].
  - reflexivity.
  - cbn. apply IH.
  - cbn. rewrite fold_left_app. destruct B; cbn; apply IH.
Qed.

Lemma download_watch_pass isu f0 e t r :
  pass_calls isu f0 e t ->
  fold_left download_watch t (false, r) =
    (match e with Starved => true | _ => false end, r).
Proof.
  intros P. destruct P as [f | f | f | f p t L | f p t L]; cbn; try reflexivity.
  - rewrite fold_left_app, (download_watch_loop f t _ L). cbn.
    rewrite !andb_true_r. reflexivity.
  - rewrite (download_watch_loop f t _ L), andb_true_r. reflexivity.
Qed.

Lemma download_watch_cycle f h done t r :
  cycle_calls f h done t -> fold_left download_watch t (false, r) = (false, r).
Proof.
  intros C. destruct C; cbn; rewrite ?andb_true_r; reflexivity.
Qed.

Lemma download_watch_run isu f0 e t :
  run_turns isu f0 e t ->
  exists d, fold_left download_watch t (false, true) = (d, true) /\ (d = true -> e = Starved).
Proof.
  induction 1 as [isu f | isu f | isu f e t Hne P | isu f e t rest P R IH
                 | isu f t h tc P C | isu f e t h tc rest P C R IH].
  - exists false. split; [reflexivity | discriminate].
  - exists false. split; [reflexivity | discriminate].
  - rewrite (download_watch_pass _ _ _ _ true P).
    eexists. split; [reflexivity|]. destruct e; try discriminate. reflexivity.
  - rewrite fold_left_app, (download_watch_pass _ _ _ _ true P). exact IH.
  - rewrite fold_left_app, (download_watch_pass _ _ _ _ true P),
      (download_watch_cycle _ _ _ _ true C).
    exists false. split; [reflexivity | discriminate].
  - rewrite !fold_left_app, (download_watch_pass _ _ _ _ true P),
      (download_watch_cycle _ _ _ _ true C). exact IH.
Qed.

Lemma verdict_watch_loop f t : forall st,
  loop_turns f t -> fold_left verdict_watch t st = st.
Proof.
  intros st L. revert st.
  induction L as [| t L IH | tb t B L IH]; intros [d r].
  - reflexivity.
  - cbn. apply IH.
  - cbn. rewrite fold_left_app. destruct B; cbn; apply IH.
Qed.

Lemma verdict_watch_pass isu f0 e t st :
  pass_calls isu f0 e t -> fold_left verdict_watch t st = st.
Proof.
  intros P. destruct st as [d r].
  destruct P as [f | f | f | f p t L | f p t L]; cbn; try reflexivity.
  - rewrite fold_left_app, (verdict_watch_loop f t _ L). reflexivity.
  - apply (verdict_watch_loop f t _ L).
Qed.

Lemma verdict_watch_cycle f h done t r :
  cycle_calls f h done t ->
  fold_left verdict_watch t (false, r) = (negb done, r).
Proof.
  intros C. destruct C; cbn; rewrite ?andb_true_r; reflexivity.
Qed.

Lemma verdict_watch_run isu f0 e t :
  run_turns isu f0 e t ->
  exists p, fold_left verdict_watch t (false, true) = (p, true) /\ (p = true -> e = Threw).
Proof.
  induction 1 as [isu f | isu f | isu f e t Hne P | isu f e t rest P R IH
                 | isu f t h tc P C | isu f e t h tc rest P C R IH].
  - exists false. split; [reflexivity | discriminate].
  - exists false. split; [reflexivity | discriminate].
  - rewrite (verdict_watch_pass _ _ _ _ _ P). exists false. split; [reflexivity | discriminate].
  - rewrite fold_left_app, (verdict_watch_pass _ _ _ _ _ P). exact IH.
  - rewrite fold_left_app, (verdict_watch_pass _ _ _ _ _ P),
      (verdict_watch_cycle _ _ _ _ true C).
    exists true. split; [reflexivity | reflexivity].
  - rewrite !fold_left_app, (verdict_watch_pass _ _ _ _ _ P),
      (verdict_watch_cycle _ _ _ _ true C). exact IH.
Qed.

Lemma count_loop_turns p f t :
  (forall n, p (EvTimedWaitAndPop n) = false) ->
  (forall bs, p (EvInsertBlocks bs) = false) ->
  (forall m, p (EvAccept m) = false) ->
  loop_turns f t -> count p t = 0%nat.
Proof.
  intros Hw Hi Ha L.
  induction L as [| t L IH | tb t B L IH]; [reflexivity | |].
  - change (EvTimedWaitAndPop 100 :: t) with ([EvTimedWaitAndPop 100] ++ t).
    rewrite count_app, IH. unfold count. cbn. rewrite Hw. reflexivity.
  - change (EvTimedWaitAndPop 100 :: tb ++ t) with ([EvTimedWaitAndPop 100] ++ tb ++ t).
    rewrite !count_app, IH. unfold count. cbn. rewrite Hw.
    destruct B; cbn; rewrite ?Hi, ?Ha; reflexivity.
Qed.

Lemma last_fork_choice_pass isu f0 e t :
  pass_calls isu f0 e t -> count is_last_fork_choice t = (if isu then 1 else 0)%nat.
Proof.
  intros P. destruct P as [f | f | f | f p t L | f p t L]; try reflexivity.
  - change (count is_last_fork_choice (t ++ [EvStopDownloading]) = 0%nat).
    rewrite count_app, (count_loop_turns _ f t); [reflexivity | | | | exact L]; reflexivity.
  - change (count is_last_fork_choice t = 0%nat).
    apply (count_loop_turns _ f t); [reflexivity | reflexivity | reflexivity | exact L].
Qed.

Lemma last_fork_choice_cycle f h done t :
  cycle_calls f h done t -> count is_last_fork_choice t = 0%nat.
Proof. intros C. destruct C; reflexivity. Qed.

Lemma last_fork_choice_run isu f0 e t :
  run_turns isu f0 e t -> (count is_last_fork_choice t <= (if isu then 1 else 0))%nat.
Proof.
  induction 1 as [isu f | isu f | isu f e t Hne P | isu f e t rest P R IH
                 | isu f t h tc P C | isu f e t h tc rest P C R IH];
    rewrite ?count_app, ?(last_fork_choice_pass _ _ _ _ P), ?(last_fork_choice_cycle _ _ _ _ C);
    cbn in *; try lia.
Qed.

(** *** Announcements come after inserts *)

Lemma follows_insert_app a b :
  announcement_follows_insert a ->
  announcement_follows_insert b ->
  quiet_start b ->
  announcement_follows_insert (a ++ b).
Proof.
  intros Ha Hb Hq t1 bs f t2 E.
  apply app_eq_app in E. destruct E as [l [[E1 E2] | [E1 E2]]].
  - destruct l as [|e l].
    + cbn in E2. subst b. cbn in Hq. discriminate Hq.
    + cbn in E2. injection E2 as <- ->. apply (Ha t1 bs f l). exact E1.
  - destruct (Hb l bs f t2 E2) as (Hne & Hall & t0 & ps & -> & Hsub).
    split; [exact Hne|]. split; [exact Hall|].
    exists (a ++ t0), ps. split; [rewrite E1, app_assoc; reflexivity | exact Hsub].
Qed.

Lemma follows_insert_quiet t :
  forallb (fun e => negb (is_block_announcement e)) t = true ->
  announcement_follows_insert t.
Proof.
  intros F t1 bs f t2 E. rewrite forallb_forall in F.
  assert (Hin : In (EvAccept (OutboundNewBlock bs f)) t).
  { rewrite E. apply in_or_app. right. left. reflexivity. }
  specialize (F _ Hin). discriminate F.
Qed.

Lemma follows_insert_batch f tb :
  batch_calls f tb -> announcement_follows_insert tb /\ quiet_start tb.
Proof.
  intros B. destruct B as [ps | ps bs Hne Hall Hsub].
  - split; [apply follows_insert_quiet|]; reflexivity.
  - split; [|reflexivity].
    intros t1 bs' f' t2 E.
    destruct t1 as [|x [|y t1]]; cbn in E.
    + discriminate E.
    + injection E as <- <- <- <-.
      split; [exact Hne|]. split; [exact Hall|].
      exists [], ps. split; [reflexivity | exact Hsub].
    + injection E as _ _ E. destruct t1; discriminate E.
Qed.

Lemma follows_insert_loop f t :
  loop_turns f t -> announcement_follows_insert t /\ quiet_start t.
Proof.
  induction 1 as [| t L [IH _] | tb t B L [IH Hq]].
  - split; [apply follows_insert_quiet|]; reflexivity.
  - split; [|reflexivity].
    apply (follows_insert_app [EvTimedWaitAndPop 100] t);
      [apply follows_insert_quiet; reflexivity | exact IH |].
    destruct L as [| |tb' t' B']; reflexivity.
  - split; [|reflexivity].
    destruct (follows_insert_batch f tb B) as [Hb Hqb].
    apply (follows_insert_app [EvTimedWaitAndPop 100] (tb ++ t));
      [apply follows_insert_quiet; reflexivity | |].
    + apply follows_insert_app; assumption.
    + destruct B; reflexivity.
Qed.

Lemma follows_insert_pass isu f0 e t :
  pass_calls isu f0 e t -> announcement_follows_insert t /\ quiet_start t.
Proof.
  intros P. destruct P as [f | f | f | f p t L | f p t L];
    try (split; [apply follows_insert_quiet|]; reflexivity).
  - split; [|reflexivity].
    destruct (follows_insert_loop f t L) as [Hl Hq].
    apply (follows_insert_app [EvBlockProgress; EvDownloadBlocks p kByAnnouncements]
                              (t ++ [EvStopDownloading]));
      [apply follows_insert_quiet; reflexivity | |].
    + apply follows_insert_app;
        [exact Hl | apply follows_insert_quiet; reflexivity | reflexivity].
    + destruct L; reflexivity.
  - split; [|reflexivity].
    destruct (follows_insert_loop f t L) as [Hl Hq].
    apply (follows_insert_app [EvBlockProgress; EvDownloadBlocks p kByAnnouncements] t);
      [apply follows_insert_quiet; reflexivity | exact Hl | exact Hq].
Qed.

Lemma follows_insert_cycle f h done t :
  cycle_calls f h done t -> announcement_follows_insert t /\ quiet_start t.
Proof.
  intros C. destruct C; (split; [apply follows_insert_quiet|]; reflexivity).
Qed.

Lemma quiet_start_app a b : quiet_start a -> quiet_start b -> quiet_start (a ++ b).
Proof. destruct a; intros Ha Hb; [exact Hb | exact Ha]. Qed.

Lemma follows_insert_run isu f0 e t :
  run_turns isu f0 e t -> announcement_follows_insert t /\ quiet_start t.
Proof.
  induction 1 as [isu f | isu f | isu f e t Hne P | isu f e t rest P R [IH IHq]
                 | isu f t h tc P C | isu f e t h tc rest P C R [IH IHq]].
  - split; [apply follows_insert_quiet|]; reflexivity.
  - split; [apply follows_insert_quiet|]; reflexivity.
  - apply (follows_insert_pass _ _ _ _ P).
  - destruct (follows_insert_pass _ _ _ _ P) as [Hp Hq].
    split; [apply follows_insert_app | apply quiet_start_app]; assumption.
  - destruct (follows_insert_pass _ _ _ _ P) as [Hp Hq].
    destruct (follows_insert_cycle _ _ _ _ C) as [Hc Hqc].
    split; [apply follows_insert_app | apply quiet_start_app]; assumption.
  - destruct (follows_insert_pass _ _ _ _ P) as [Hp Hq].
    destruct (follows_insert_cycle _ _ _ _ C) as [Hc Hqc].
    split; [|apply quiet_start_app; [exact Hq | apply quiet_start_app; assumption]].
    apply follows_insert_app; [exact Hp | | apply quiet_start_app; assumption].
    apply follows_insert_app; assumption.
Qed.

(** *** The flags of the announcements *)

Lemma announced_flags_app t1 t2 :
  announced_flags (t1 ++ t2) = announced_flags t1 ++ announced_flags t2.
Proof. unfold announced_flags. apply flat_map_app. Qed.

Lemma flags_batch f tb :
  batch_calls f tb -> Forall (fun x => x = f) (announced_flags tb).
Proof. intros B. destruct B; cbn; repeat constructor. Qed.

Lemma flags_loop f t :
  loop_turns f t -> Forall (fun x => x = f) (announced_flags t).
Proof.
  induction 1 as [| t L IH | tb t B L IH]; cbn.
  - constructor.
  - exact IH.
  - rewrite announced_flags_app. apply Forall_app. split; [apply flags_batch; exact B | exact IH].
Qed.

Lemma flags_pass isu f e t :
  pass_calls isu f e t -> Forall (fun x => x = f) (announced_flags t).
Proof.
  intros P. destruct P as [f | f | f | f p t L | f p t L]; cbn; try constructor.
  - rewrite announced_flags_app. cbn. rewrite app_nil_r. apply flags_loop. exact L.
  - apply flags_loop. exact L.
Qed.

Lemma flags_cycle f h done t :
  cycle_calls f h done t -> Forall (fun x => x = f) (announced_flags t).
Proof. intros C. destruct C; cbn; repeat constructor. Qed.

Lemma all_false_then l : Forall (fun x => x = false) l -> true_then_false l.
Proof.
  intros H. exists 0%nat, (length l). cbn.
  induction H as [|x l -> _ IH]; cbn; [reflexivity | f_equal; exact IH].
Qed.

Lemma all_true_then a b :
  Forall (fun x => x = true) a -> true_then_false b -> true_then_false (a ++ b).
Proof.
  intros Ha (n & m & ->). exists (length a + n)%nat, m.
  rewrite repeat_app, <- app_assoc. f_equal.
  induction Ha as [|x l -> _ IH]; cbn; [reflexivity | f_equal; exact IH].
Qed.

(** once [is_first_sync_] is false after the first turn, every announcement
    carries [false] *)
Lemma flags_run_off isu f e t :
  run_turns isu f e t -> isu = false -> f = false ->
  Forall (fun x => x = false) (announced_flags t).
Proof.
  induction 1 as [isu f | isu f | isu f e t Hne P | isu f e t rest P R IH
                 | isu f t h tc P C | isu f e t h tc rest P C R IH];
    intros Hi Hf; subst; rewrite ?announced_flags_app; repeat (apply Forall_app; split);
    try (constructor; fail);
    try (eapply flags_pass; eassumption);
    try (eapply flags_cycle; eassumption).
  - apply IH; reflexivity.
  - apply IH; reflexivity.
Qed.

Lemma flags_run_on isu f e t :
  run_turns isu f e t -> isu = false -> f = true ->
  true_then_false (announced_flags t).
Proof.
  induction 1 as [isu f | isu f | isu f e t Hne P | isu f e t rest P R IH
                 | isu f t h tc P C | isu f e t h tc rest P C R IH];
    intros Hi Hf; subst; rewrite ?announced_flags_app.
  - exists 0%nat, 0%nat. reflexivity.
  - exists 0%nat, 0%nat. reflexivity.
  - rewrite <- (app_nil_r (announced_flags t)).
    apply all_true_then; [eapply flags_pass; eassumption | exists 0%nat, 0%nat; reflexivity].
  - apply all_true_then; [eapply flags_pass; eassumption | apply IH; reflexivity].
  - apply all_true_then; [eapply flags_pass; eassumption|].
    rewrite <- (app_nil_r (announced_flags tc)).
    apply all_true_then; [eapply flags_cycle; eassumption | exists 0%nat, 0%nat; reflexivity].
  - apply all_true_then; [eapply flags_pass; eassumption|].
    apply all_true_then; [eapply flags_cycle; eassumption|].
    apply all_false_then. eapply flags_run_off; [eassumption | reflexivity | reflexivity].
Qed.

Lemma flags_run_start e t :
  run_turns true true e t -> true_then_false (announced_flags t).
Proof.
  intros R. inversion R as [isu f | isu f | isu f e' t' Hne P | isu f e' t' rest P R'
                           | isu f t' h tc P C | isu f e' t' h tc rest P C R']; subst;
    rewrite ?announced_flags_app.
  - exists 0%nat, 0%nat. reflexivity.
  - exists 0%nat, 0%nat. reflexivity.
  - rewrite <- (app_nil_r (announced_flags t)).
    apply all_true_then; [eapply flags_pass; eassumption | exists 0%nat, 0%nat; reflexivity].
  - apply all_true_then; [eapply flags_pass; eassumption|].
    eapply flags_run_on; [eassumption | reflexivity | reflexivity].
  - apply all_true_then; [eapply flags_pass; eassumption|].
    rewrite <- (app_nil_r (announced_flags tc)).
    apply all_true_then; [eapply flags_cycle; eassumption | exists 0%nat, 0%nat; reflexivity].
  - apply all_true_then; [eapply flags_pass; eassumption|].
    apply all_true_then; [eapply flags_cycle; eassumption|].
    eapply flags_run_on; [eassumption | reflexivity | reflexivity].
Qed.

Section RunProperties.
Context {W V : Type}.
Context {EE : ExecutionClient W} {BE : BlockExchange W} {AC : ActiveComponent W}.
Context {CFV : ChainForkView V}.
Variable to_hex : Hash -> string.

Implicit Types (c : Config W V) (t : list Event).

(** ** Properties of whole runs *)

Lemma execution_while_returns_on_stop fuel : forall isu c c',
  execution_while to_hex fuel isu c = (Ret tt, c') -> is_stopping (world c') = true.
Proof.
  induction fuel as [|fuel IH]; intros isu c c' H.
  - discriminate H.
  - rewrite execution_while_step in H.
    destruct (is_stopping (world c)) eqn:Hs.
    + injection H as <-. exact Hs.
    + unfold bind in H.
      destruct (execution_body to_hex fuel isu c) as [[isu' | e |] c1]; try discriminate H.
      apply (IH isu' c1 c'). exact H.
Qed.

(** X11: the driver loop returns only when it is asked to stop: a run that
    ends without an error ends with the stop flag up. *)
Theorem driver_returns_only_on_stop fuel (w : W) c' :
  execution_loop to_hex fuel (start w) = (Ret tt, c') ->
  is_stopping (world c') = true.
Proof.
  rewrite execution_loop_startup. apply execution_while_returns_on_stop.
Qed.

(** X12: every run starts by asking the engine for its last 65536 headers
    and handing them to the exchange as its initial state; a driver that is
    asked to stop before its first turn makes no other call. *)
Theorem startup_hands_headers_to_exchange fuel (w : W) :
  let hs := fst (get_last_headers 65536 w) in
  let w1 := initial_state hs (snd (get_last_headers 65536 w)) in
  let r := execution_loop to_hex fuel (start w) in
  (exists t, trace (snd r) = EvGetLastHeaders 65536 :: EvInitialState hs :: t) /\
  (is_stopping w1 = true -> fuel <> 0%nat ->
     r = (Ret tt, mkConfig new_PoWSync w1 [EvGetLastHeaders 65536; EvInitialState hs])).
Proof.
  intros hs w1 r. subst r. split.
  - destruct (execution_loop_shape to_hex fuel w) as (t & T & _). exists t. exact T.
  - intros Hs Hf. rewrite execution_loop_startup.
    destruct fuel as [|fuel]; [contradiction Hf; reflexivity|].
    rewrite execution_while_step. cbn [world]. fold hs. fold w1. rewrite Hs. reflexivity.
Qed.

(** X13: along every run downloading and verifying exclude each other:
    [download_blocks] is only called when no download is on,
    [stop_downloading] only when one is, [validate_chain] and
    [update_fork_choice] only when none is; and a download is left on only
    by a run that is still inside its forward loop. *)
Theorem downloads_are_bracketed fuel (w : W) :
  let r := execution_loop to_hex fuel (start w) in
  downloads_bracketed (trace (snd r)) = true /\
  (still_downloading (trace (snd r)) = true -> fst r = OutOfFuel).
Proof.
  intros r. subst r.
  destruct (execution_loop_shape to_hex fuel w) as (t & T & R).
  destruct (download_watch_run _ _ _ _ R) as (d & Hd & He).
  unfold downloads_bracketed, still_downloading. rewrite T. cbn. rewrite Hd. cbn.
  split; [reflexivity|]. intros ->. specialize (He eq_refl).
  destruct (fst (execution_loop to_hex fuel (start w))); try discriminate He. reflexivity.
Qed.

(** X14: along every run each [update_fork_choice] answers one
    [validate_chain]: the fork choice is never moved without a validation
    just before, never twice for one validation, and a validation is left
    unanswered only by a run that ends in an error. *)
Theorem fork_choice_updates_answer_validations fuel (w : W) :
  let r := execution_loop to_hex fuel (start w) in
  updates_answer_validations (trace (snd r)) = true /\
  (validation_unanswered (trace (snd r)) = true -> exists e, fst r = Throw e).
Proof.
  intros r. subst r.
  destruct (execution_loop_shape to_hex fuel w) as (t & T & R).
  destruct (verdict_watch_run _ _ _ _ R) as (p & Hp & He).
  unfold updates_answer_validations, validation_unanswered. rewrite T. cbn. rewrite Hp. cbn.
  split; [reflexivity|]. intros ->. specialize (He eq_refl).
  destruct (fst (execution_loop to_hex fuel (start w))) as [a | e |]; try discriminate He.
  exists e. reflexivity.
Qed.

(** X15: [resume] is entered at most once in a run: the engine is asked for
    its last fork choice at most once. *)
Theorem resume_at_most_once fuel (w : W) :
  (count is_last_fork_choice (trace (snd (execution_loop to_hex fuel (start w)))) <= 1)%nat.
Proof.
  destruct (execution_loop_shape to_hex fuel w) as (t & T & R).
  rewrite T.
  change (EvGetLastHeaders 65536 :: EvInitialState (fst (get_last_headers 65536 w)) :: t)
    with ([EvGetLastHeaders 65536; EvInitialState (fst (get_last_headers 65536 w))] ++ t).
  rewrite count_app. pose proof (last_fork_choice_run _ _ _ _ R) as H.
  unfold count at 1. cbn. cbn in H. lia.
Qed.

(** X16: along every run a block announcement comes right after the
    [insert_blocks] of its batch: it is never empty, carries only blocks
    flagged [to_announce], and these are blocks of the batch just inserted,
    in the order of the batch. *)
Theorem announcements_follow_inserts fuel (w : W) :
  announcement_follows_insert (trace (snd (execution_loop to_hex fuel (start w)))).
Proof.
  destruct (execution_loop_shape to_hex fuel w) as (t & T & R).
  rewrite T.
  change (EvGetLastHeaders 65536 :: EvInitialState (fst (get_last_headers 65536 w)) :: t)
    with ([EvGetLastHeaders 65536; EvInitialState (fst (get_last_headers 65536 w))] ++ t).
  destruct (follows_insert_run _ _ _ _ R) as [Hr Hq].
  apply follows_insert_app; [apply follows_insert_quiet; reflexivity | exact Hr | exact Hq].
Qed.

(** X17: along every run the [is_first_sync] flags of the announcements, in
    the order they are made, are some [true]s followed by [false]s only:
    once an announcement has carried [false], none carries [true] again. *)
Theorem first_sync_flag_never_returns fuel (w : W) :
  true_then_false (announced_flags (trace (snd (execution_loop to_hex fuel (start w))))).
Proof.
  destruct (execution_loop_shape to_hex fuel w) as (t & T & R).
  rewrite T. cbn. apply (flags_run_start _ _ R).
Qed.

(** X18: in a turn that goes forward, the driver asks the engine to validate
    nothing but the head of its own view, as the view stands at the end of
    the turn, and never a head at height 0. *)
Theorem forward_turn_validates_view_head fuel c :
  let r := execution_body to_hex fuel false c in
  forall h, In (EvValidateChain h) (calls_since c (snd r)) ->
    h = head_hash (chain_fork_view_ (self (snd r))) /\
    head_height (chain_fork_view_ (self (snd r))) <> 0.
Proof.
  intros r h. subst r.
  destruct (forward_calls fuel c) as (p & tp & Tp & Fp & _).
  pose proof (forward_result_is_view_head fuel c) as Hhead.
  unfold execution_body, bind.
  assert (Hquiet : ~ In (EvValidateChain h)
                     (EvBlockProgress :: EvDownloadBlocks p kByAnnouncements :: tp)).
  { intros [H | [H | H]]; try discriminate H.
    revert H. apply (forward_call_not_validate (is_first_sync_ (self c))). exact Fp. }
  destruct (forward_and_insert_blocks fuel c) as [[new_height | e |] c1]; cbn [fst snd] in *.
  - specialize (Hhead new_height c1 eq_refl).
    destruct (N.eq_dec (BlockId.number new_height) 0) as [Hz | Hnz].
    + rewrite (after_pass_zero to_hex false new_height c1 Hz). cbn [snd].
      rewrite (calls_since_app _ _ _ Tp). intros Hin. contradiction.
    + destruct (after_pass_calls to_hex false new_height c1 Hnz) as (tc & Tc & C & _).
      destruct (after_pass_self to_hex false new_height c1) as [Hview _].
      rewrite Hview.
      erewrite calls_since_app by (rewrite Tc, Tp, <- app_assoc; reflexivity).
      intros Hin.
      change (In (EvValidateChain h)
                ((EvBlockProgress :: EvDownloadBlocks p kByAnnouncements :: tp) ++ tc)) in Hin.
      apply in_app_or in Hin. destruct Hin as [Hin | Hin]; [contradiction|].
      assert (h = BlockId.hash new_height) as ->.
      { inversion C; subst; cbn in Hin;
          repeat (destruct Hin as [Hin | Hin]; [try discriminate Hin|]);
          try contradiction; injection Hin as <-; reflexivity. }
      rewrite Hhead in Hnz |- *. cbn in *. split; [reflexivity | exact Hnz].
  - rewrite (calls_since_app _ _ _ Tp). intros Hin. contradiction.
  - rewrite (calls_since_app _ _ _ Tp). intros Hin. contradiction.
Qed.

End RunProperties.

(** ** Runs on the scripted outside *)

(** C5 on an engine whose fork choice (block 5) is beyond its progress (3) *)
Lemma resume_fatal_iff_head_beyond_progress_witness :
  let c := Sim.config Scenario.head_beyond true in
  ((exists e, fst (resume c) = Throw e) <-> 3 < 5) /\
  (3 < 5 ->
     fst (resume c) =
       Throw (LogicError "Consensus invariant violation: canonical head beyond block progress") /\
     chain_fork_view_ (self (snd (resume c))) = ChainHead.mk 5 1005 0 /\
     calls_since c (snd (resume c)) = [EvLastForkChoice; EvBlockProgress]).
Proof.
  exact (resume_fatal_iff_head_beyond_progress
           (Sim.config Scenario.head_beyond true)
           (BlockId.mk 5 1005) Scenario.head_beyond 3 Scenario.head_beyond
           eq_refl eq_refl).
Defined.

(** C6 on an engine whose progress (103) is ahead of its fork choice (100) *)
Lemma resume_returns_head_witness :
  let c := Sim.config Scenario.tips_ahead true in
  calls_since c (snd (resume c)) = [EvLastForkChoice; EvBlockProgress; EvGetLastHeaders 128] /\
  chain_fork_view_ (self (snd (resume c))) = ChainHead.mk 103 1103 3 /\
  fst (resume c) = Ret (BlockId.mk 103 1103) /\
  world (snd (resume c)) = Scenario.tips_ahead.
Proof.
  pose proof (resume_returns_head
                (Sim.config Scenario.tips_ahead true)
                (BlockId.mk 100 1100) Scenario.tips_ahead 103 Scenario.tips_ahead
                (map Sim.header [100; 101; 102; 103]) Scenario.tips_ahead
                eq_refl eq_refl eq_refl) as [_ H].
  exact (H eq_refl).
Defined.

(** [resume] on an engine whose progress is at its fork choice: the head
    comes back as it was given, and no header is asked for *)
Example resume_at_progress_run :
  let c := Sim.config (Sim.at_block 100 [] []) true in
  resume c =
    (Ret (BlockId.mk 100 1100),
     mkConfig (mkPoWSync (ChainHead.mk 100 1100 0) true) (Sim.at_block 100 [] [])
              [EvLastForkChoice; EvBlockProgress]).
Proof. reflexivity. Qed.

(** C3 on an engine that finds the chain up to block 100 valid, its fork
    choice being at block 99: the fork choice moves to block 100 and the
    exchange gets the announcement *)
Lemma valid_chain_cycle_witness :
  let w := Sim.set_fork_choice (Sim.at_block 100 [] []) (BlockId.mk 99 1099) in
  let c := Sim.config w true in
  let r := after_pass Sim.to_hex false (BlockId.mk 100 1100) c in
  fst r = Ret false /\
  calls_since c (snd r) =
    [EvValidateChain 1100; EvUpdateForkChoice 1100; EvAccept (OutboundNewBlockHashes true)] /\
  Sim.fork_choice (world (snd r)) = BlockId.mk 100 1100 /\
  Sim.outbox (world (snd r)) = [OutboundNewBlockHashes true] /\
  is_first_sync_ (self (snd r)) = false.
Proof.
  assert (Hn : BlockId.number (BlockId.mk 100 1100) <> 0) by discriminate.
  pose proof (valid_chain_cycle Sim.to_hex false (BlockId.mk 100 1100)
                (Sim.config (Sim.set_fork_choice (Sim.at_block 100 [] []) (BlockId.mk 99 1099)) true)
                1100 (Sim.set_fork_choice (Sim.at_block 100 [] []) (BlockId.mk 99 1099))
                Hn eq_refl) as (_ & _ & H).
  destruct (H eq_refl) as (H1 & H2 & H3 & H4).
  cbv zeta. rewrite H3, H4.
  split; [exact H1|]. split; [exact H2|]. repeat split.
Defined.

(** a verify cycle on an engine that answers with another head than the one
    asked for: nothing is done after the verdict *)
Example valid_mismatch_run :
  let c := Sim.config Scenario.valid_mismatch true in
  let r := after_pass Sim.to_hex false (BlockId.mk 100 1100) c in
  fst r = Throw (LogicError "Consensus invariant violation: Invalid verify_chain result") /\
  calls_since c (snd r) = [EvValidateChain 1100] /\
  Sim.fork_choice (world (snd r)) = BlockId.mk 100 1100 /\
  Sim.outbox (world (snd r)) = [].
Proof. repeat split. Qed.

(** C4 on an engine that finds blocks 101 and 102 bad, its fork choice
    being at block 102: the exchange gets the bad headers, the fork choice
    moves back to block 100, and no hash is announced *)
Lemma invalid_chain_cycle_witness :
  let bad : gset Hash := {[1101; 1102]} in
  let w := Sim.set_fork_choice (Scenario.invalid_chain bad) (BlockId.mk 102 1102) in
  let c := Sim.config w true in
  let r := after_pass Sim.to_hex false (BlockId.mk 102 1102) c in
  fst r = Ret false /\
  calls_since c (snd r) =
    [EvValidateChain 1102; EvGetBlockNum 1100; EvUnwind (BlockId.mk 100 1100) (Some 1101);
     EvAccept (InternalMessage_add_bad_headers bad); EvUpdateForkChoice 1100] /\
  Sim.fork_choice (world (snd r)) = BlockId.mk 100 1100 /\
  Sim.outbox (world (snd r)) = [InternalMessage_add_bad_headers bad] /\
  forall f, ~ In (EvAccept (OutboundNewBlockHashes f)) (calls_since c (snd r)).
Proof.
  assert (Hn : BlockId.number (BlockId.mk 102 1102) <> 0) by discriminate.
  assert (Hb : ({[1101; 1102]} : gset Hash) <> ∅).
  { intros E. apply (f_equal (fun s : gset Hash => bool_decide (1101 ∈ s))) in E.
    vm_compute in E. discriminate E. }
  pose proof (invalid_chain_cycle Sim.to_hex false (BlockId.mk 102 1102)
                (Sim.config (Sim.set_fork_choice (Scenario.invalid_chain {[1101; 1102]})
                                                 (BlockId.mk 102 1102)) true)
                1100 (Some 1101) {[1101; 1102]}
                (Sim.set_fork_choice (Sim.at_block 100 [] []) (BlockId.mk 102 1102))
                (Some 100)
                (Sim.set_fork_choice (Sim.at_block 100 [] []) (BlockId.mk 102 1102))
                Hn eq_refl eq_refl) as (_ & _ & H).
  destruct (H 100 eq_refl) as (H1 & _ & _ & H3 & H4).
  destruct (H3 Hb) as (H5 & H6).
  cbv zeta. rewrite H6.
  split; [exact H1|]. split; [exact H5|]. split; [reflexivity|]. split; [reflexivity|].
  exact H4.
Defined.

(** a verify cycle on an engine that names a latest valid head it does not
    know: nothing is done after the question *)
Example invalid_unknown_run :
  let c := Sim.config Scenario.invalid_unknown true in
  let r := after_pass Sim.to_hex false (BlockId.mk 100 1100) c in
  fst r = Throw (LogicError "Consensus invariant violation: Invalid latest_valid_head") /\
  calls_since c (snd r) = [EvValidateChain 1100; EvGetBlockNum 7] /\
  Sim.fork_choice (world (snd r)) = BlockId.mk 100 1100 /\
  Sim.outbox (world (snd r)) = [].
Proof. repeat split. Qed.

(** C7 on a batch of two blocks, the first one flagged: both are inserted,
    and the first one is announced with the total difficulty 1 that the
    view gave it *)
Lemma batch_inserted_then_announced_witness :
  let c := Sim.config (Sim.at_block 100 [] []) true in
  let blocks := [Sim.block 101 true; Sim.block 102 false] in
  let r := forward_batch 100 blocks c in
  let message := OutboundNewBlock [BlockEx.mk (Sim.header 101) 101 1 true 101] true in
  fst r = Ret 102 /\
  chain_fork_view_ (self (snd r)) = ChainHead.mk 102 1102 2 /\
  calls_since c (snd r) = [EvInsertBlocks (to_plain_blocks blocks); EvAccept message] /\
  Sim.progress (world (snd r)) = 102 /\
  Sim.outbox (world (snd r)) = [message].
Proof.
  pose proof (batch_inserted_then_announced 100
                [Sim.block 101 true; Sim.block 102 false]
                (Sim.config (Sim.at_block 100 [] []) true)) as (_ & _ & H3 & H4 & H5 & _).
  destruct H5 as (H5 & H6); [apply Exists_cons_hd; reflexivity|].
  cbv zeta. rewrite H3, H4, H5, H6.
  vm_compute. repeat split.
Defined.

(** a batch in which the pointer to block 102 comes twice, before and after
    block 101: the view parks the block the first time (it answers 1) and
    takes it the second time (it answers 2); the object is announced twice,
    with the total difficulty of the last write *)
Example batch_with_repeated_pointer :
  let c := Sim.config (Sim.at_block 100 [] []) true in
  let blocks := [Sim.block 102 true; Sim.block 101 false; Sim.block 102 true] in
  td_of_nth (chain_fork_view_ (self c)) blocks 0 (Sim.block 102 true) = 1 /\
  td_of_nth (chain_fork_view_ (self c)) blocks 2 (Sim.block 102 true) = 2 /\
  announced (chain_fork_view_ (self c)) 100 blocks =
    [BlockEx.mk (Sim.header 102) 102 2 true 102; BlockEx.mk (Sim.header 102) 102 2 true 102].
Proof. vm_compute. repeat split. Qed.

(** C7 as first read fails on a batch with no flagged block: nothing is
    handed to the exchange *)
Lemma batch_always_announced_fails :
  ~ batch_always_announced 100 [Sim.block 101 false] (Sim.config (Sim.at_block 100 [] []) true).
Proof.
  unfold batch_always_announced. vm_compute. intros H. discriminate H.
Qed.

(** C10 on a batch with no flagged block *)
Lemma no_flagged_block_no_announcement_witness :
  let c := Sim.config (Sim.at_block 100 [] []) true in
  let blocks := [Sim.block 101 false; Sim.block 102 false] in
  calls_since c (snd (forward_batch 100 blocks c)) = [EvInsertBlocks (to_plain_blocks blocks)] /\
  forall m, ~ In (EvAccept m) (calls_since c (snd (forward_batch 100 blocks c))).
Proof.
  pose proof (no_flagged_block_no_announcement 100
                [Sim.block 101 false; Sim.block 102 false]
                (Sim.config (Sim.at_block 100 [] []) true)) as (_ & H).
  apply H. repeat constructor.
Defined.

(** C9 on a forward pass that takes one batch and is then asked to stop *)
Lemma forward_pass_progress_and_result_witness :
  let c := Sim.config Scenario.one_batch true in
  exists final c1,
    forward_loop 5 100 (snd (forward_entry c)) = (Ret final, c1) /\
    100 <= final /\
    trace (snd (forward_and_insert_blocks 5 c)) = trace c1 ++ [EvStopDownloading] /\
    fst (forward_and_insert_blocks 5 c) = Ret (BlockId.mk 102 1102).
Proof.
  assert (E : forward_and_insert_blocks 5 (Sim.config Scenario.one_batch true) =
              (Ret (BlockId.mk 102 1102),
               snd (forward_and_insert_blocks 5 (Sim.config Scenario.one_batch true))))
    by reflexivity.
  destruct (forward_pass_progress_and_result 5
              (Sim.config Scenario.one_batch true)
              (BlockId.mk 102 1102)
              (snd (forward_and_insert_blocks 5 (Sim.config Scenario.one_batch true)))
              E) as (final & c1 & H1 & H2 & H3 & _).
  exists final, c1. repeat split; assumption.
Defined.

(** C8 on an empty database: [resume] returns height 0 *)
Lemma zero_height_skips_verification_witness :
  let c := Sim.config Scenario.empty_db true in
  execution_body Sim.to_hex 3 true c = (Ret false, snd (resume c)) /\
  forall h, ~ In (EvValidateChain h) (calls_since c (snd (resume c))).
Proof.
  assert (E : resume (Sim.config Scenario.empty_db true) =
              (Ret (BlockId.mk 0 1000), snd (resume (Sim.config Scenario.empty_db true))))
    by reflexivity.
  pose proof (zero_height_skips_verification Sim.to_hex 2 true
                (Sim.config Scenario.empty_db true)
                (BlockId.mk 0 1000)
                (snd (resume (Sim.config Scenario.empty_db true)))
                E eq_refl) as (H1 & H2 & _).
  split; [exact H1 | exact H2].
Defined.

(** C2 with the stop request arrived during a wait: [Scenario.stopping] is
    the outside [Scenario.stop_in_wait] leaves after its first timed wait *)
Lemma stop_seen_at_forward_loop_head_witness :
  let c := Sim.config Scenario.stopping true in
  forward_loop 1 100 c = (Ret 100, c) /\
  exists t,
    calls_since c (snd (forward_rest Sim.to_hex 1 100 c)) =
      EvStopDownloading :: EvValidateChain 1100 :: t.
Proof.
  pose proof (stop_seen_at_forward_loop_head Sim.to_hex 0 100
                (Sim.config Scenario.stopping true) eq_refl) as (H1 & _ & H3 & _).
  split; [exact H1|]. apply H3. discriminate.
Defined.

(** C2 as first read fails there: [validate_chain] is called after
    [stop_downloading] *)
Lemma stop_skips_validation_fails :
  ~ stop_skips_validation Sim.to_hex 1 100 (Sim.config Scenario.stopping true).
Proof.
  intros H. destruct (H eq_refl) as [_ Hno].
  apply (Hno 1100). vm_compute. right. left. reflexivity.
Qed.

(** the whole run when the stop request arrives during the first wait of the
    first forward pass *)
Example stop_in_wait_run :
  let r := execution_loop Sim.to_hex 5 (start Scenario.stop_in_wait) in
  fst r = Ret tt /\
  trace (snd r) =
    [EvGetLastHeaders 65536; EvInitialState [Sim.header 100];
     EvLastForkChoice; EvBlockProgress;
     EvValidateChain 1100; EvUpdateForkChoice 1100; EvAccept (OutboundNewBlockHashes true);
     EvBlockProgress; EvDownloadBlocks 100 kByAnnouncements;
     EvTimedWaitAndPop 100; EvStopDownloading;
     EvValidateChain 1100; EvUpdateForkChoice 1100; EvAccept (OutboundNewBlockHashes true)].
Proof. split; reflexivity. Qed.

(** C1 as first read fails on a run that resumes at block 100 and then
    takes a batch: the batch is announced with the flag still true although
    the verify cycle of [resume] is complete *)
Lemma first_sync_until_first_cycle_fails :
  first_sync_until_first_cycle
    (trace (snd (execution_loop Sim.to_hex 5 (start Scenario.one_batch)))) = false.
Proof. vm_compute. reflexivity. Qed.

(** on that run the flag is still true at the end of the first forward cycle
    and the driver turns it off only then *)
Example first_sync_off_after_forward_cycle :
  let r := execution_loop Sim.to_hex 5 (start Scenario.one_batch) in
  fst r = Ret tt /\
  is_first_sync_ (self (snd r)) = false /\
  In (EvAccept (OutboundNewBlock [BlockEx.set_td (Sim.block 101 true) 1] true)) (trace (snd r)).
Proof. vm_compute. split; [reflexivity|]. split; [reflexivity|]. do 11 right. left. reflexivity. Qed.

(** with the exchange in sync from the start the driver goes from one verify
    cycle to the next: the hash announcements of the resume cycle and of the
    first forward cycle carry [true], the next one [false] *)
Example first_sync_off_in_later_cycles :
  let r := execution_loop Sim.to_hex 4 (start Scenario.in_sync_at_100) in
  fst r = OutOfFuel /\
  List.filter (fun e => match e with EvAccept _ => true | _ => false end) (trace (snd r)) =
    [EvAccept (OutboundNewBlockHashes true);
     EvAccept (OutboundNewBlockHashes true);
     EvAccept (OutboundNewBlockHashes false)] /\
  first_sync_until_first_forward_cycle (trace (snd r)) = true.
Proof. vm_compute. repeat split. Qed.

(** the watch does tell a wrong flag *)
Example watch_tells_wrong_flag :
  first_sync_until_first_forward_cycle [EvAccept (OutboundNewBlock [] false)] = false /\
  first_sync_until_first_forward_cycle
    [EvDownloadBlocks 0 kByAnnouncements; EvValidateChain 1; EvUpdateForkChoice 1;
     EvAccept (OutboundNewBlockHashes true); EvAccept (OutboundNewBlock [] true)] = false.
Proof. split; reflexivity. Qed.

(** ** More runs on the scripted outside *)

(** X1 on a forward loop that takes one batch and is then asked to stop *)
Lemma forward_loop_exit_condition_witness :
  let c := Sim.config Scenario.one_batch true in
  is_stopping (world (snd (forward_loop 5 100 c))) = true \/
  (in_sync (world (snd (forward_loop 5 100 c))) = true /\
   102 = current_height (world (snd (forward_loop 5 100 c)))).
Proof.
  assert (E : forward_loop 5 100 (Sim.config Scenario.one_batch true) =
              (Ret 102, snd (forward_loop 5 100 (Sim.config Scenario.one_batch true))))
    by reflexivity.
  exact (forward_loop_exit_condition 5 100 _ 102 _ E).
Defined.

(** X2 on the same loop: blocks 101 and 102 inserted, 102 returned *)
Lemma forward_loop_progress_is_max_witness :
  let c := Sim.config Scenario.one_batch true in
  let numbers := block_numbers (inserted_blocks (calls_since c (snd (forward_loop 5 100 c)))) in
  102 = fold_left N.max numbers 100 /\
  100 <= 102 /\
  (forall n, In n numbers -> n <= 102) /\
  (102 = 100 \/ In 102 numbers).
Proof.
  assert (E : forward_loop 5 100 (Sim.config Scenario.one_batch true) =
              (Ret 102, snd (forward_loop 5 100 (Sim.config Scenario.one_batch true))))
    by reflexivity.
  exact (forward_loop_progress_is_max 5 100 _ 102 _ E).
Defined.

(** X4 on a forward pass during whose first wait the stop request arrives *)
Lemma forward_pass_without_batch_witness :
  let c := Sim.config Scenario.stop_in_wait true in
  let c' := snd (forward_and_insert_blocks 5 c) in
  self c' = self c /\
  fst (forward_and_insert_blocks 5 c) = Ret (BlockId.mk 100 1100) /\
  (forall m, ~ In (EvAccept m) (calls_since c c')).
Proof.
  assert (E : forward_and_insert_blocks 5 (Sim.config Scenario.stop_in_wait true) =
              (Ret (BlockId.mk 100 1100),
               snd (forward_and_insert_blocks 5 (Sim.config Scenario.stop_in_wait true))))
    by reflexivity.
  assert (Hno : forall ps,
             ~ In (EvInsertBlocks ps)
                 (calls_since (Sim.config Scenario.stop_in_wait true)
                    (snd (forward_and_insert_blocks 5 (Sim.config Scenario.stop_in_wait true))))).
  { intros ps Hin. vm_compute in Hin.
    repeat (destruct Hin as [Hin | Hin]; [discriminate Hin|]). exact Hin. }
  destruct (forward_pass_without_batch 5 _ _ _ E Hno) as (H1 & _ & H3 & _).
  split; [exact H1|]. split; [reflexivity | exact H3].
Defined.

(** X6 on an engine that cannot decide *)
Lemma undecided_verdict_is_fatal_witness :
  let c := Script.at_head Script.validation_error in
  let r := after_pass Sim.to_hex false (BlockId.mk 100 1100) c in
  (exists e, fst r = Throw e) /\
  calls_since c (snd r) = [EvValidateChain 1100] /\
  self (snd r) = self c.
Proof.
  assert (Hn : BlockId.number (BlockId.mk 100 1100) <> 0) by discriminate.
  assert (Hv : forall current_head, ValidationError 1100 1099 <> ValidChain current_head)
    by discriminate.
  assert (Hi : forall lvh bad_block bad_headers,
             ValidationError 1100 1099 <> InvalidChain lvh bad_block bad_headers)
    by discriminate.
  assert (E : validate_chain (BlockId.hash (BlockId.mk 100 1100))
                (world (Script.at_head Script.validation_error)) =
              (ValidationError 1100 1099, Sim.at_block 100 [] []))
    by reflexivity.
  destruct (undecided_verdict_is_fatal Sim.to_hex false (BlockId.mk 100 1100)
              (Script.at_head Script.validation_error)
              (ValidationError 1100 1099) (Sim.at_block 100 [] [])
              Hn E Hv Hi) as (_ & _ & H3 & H4 & H5).
  split; [exact H3|]. split; [exact H4 | exact H5].
Defined.

(** X7 on the same engine *)
Lemma fatal_cycle_moves_nothing_witness :
  let c := Script.at_head Script.validation_error in
  let r := after_pass Sim.to_hex false (BlockId.mk 100 1100) c in
  self (snd r) = self c /\
  (forall h, ~ In (EvUpdateForkChoice h) (calls_since c (snd r))) /\
  (forall p bad_block, ~ In (EvUnwind p bad_block) (calls_since c (snd r))) /\
  (forall m, ~ In (EvAccept m) (calls_since c (snd r))).
Proof.
  eapply (fatal_cycle_moves_nothing Sim.to_hex false (BlockId.mk 100 1100)
            (Script.at_head Script.validation_error)).
  reflexivity.
Defined.

(** X8 on an engine that finds the chain invalid down to block 100 *)
Lemma fork_choice_moves_to_vouched_head_witness :
  let c := Script.at_head Script.invalid_once in
  let calls := calls_since c (snd (after_pass Sim.to_hex false (BlockId.mk 100 1100) c)) in
  In (EvUpdateForkChoice 1100) calls /\
  (count is_update calls <= 1)%nat.
Proof.
  assert (Hn : BlockId.number (BlockId.mk 100 1100) <> 0) by discriminate.
  assert (E : validate_chain (BlockId.hash (BlockId.mk 100 1100))
                (world (Script.at_head Script.invalid_once)) =
              (InvalidChain 1100 (Some 1101) {[1101]}, Sim.at_block 100 [] []))
    by reflexivity.
  destruct (fork_choice_moves_to_vouched_head Sim.to_hex false (BlockId.mk 100 1100)
              (Script.at_head Script.invalid_once)
              (InvalidChain 1100 (Some 1101) {[1101]}) (Sim.at_block 100 [] [])
              Hn E) as (_ & H2).
  split; [|exact H2].
  vm_compute. do 4 right. left. reflexivity.
Defined.

(** X9 on the same engine: the fork choice goes back to block 100 and the
    view keeps its head *)
Lemma verify_cycle_keeps_view_witness :
  let c := Script.at_head Script.invalid_once in
  let r := after_pass Sim.to_hex false (BlockId.mk 100 1100) c in
  In (EvUpdateForkChoice 1100) (calls_since c (snd r)) /\
  head_hash (chain_fork_view_ (self (snd r))) = head_hash (chain_fork_view_ (self c)).
Proof.
  assert (Hn : BlockId.number (BlockId.mk 100 1100) <> 0) by discriminate.
  destruct (verify_cycle_keeps_view Sim.to_hex false (BlockId.mk 100 1100)
              (Script.at_head Script.invalid_once)) as (_ & H).
  assert (E : validate_chain (BlockId.hash (BlockId.mk 100 1100))
                (world (Script.at_head Script.invalid_once)) =
              (InvalidChain 1100 (Some 1101) {[1101]}, Sim.at_block 100 [] []))
    by reflexivity.
  assert (E2 : get_block_num 1100 (Sim.at_block 100 [] []) = (Some 100, Sim.at_block 100 [] []))
    by reflexivity.
  exact (H 1100 (Some 1101) {[1101]} (Sim.at_block 100 [] []) 100 (Sim.at_block 100 [] [])
           Hn E E2).
Defined.

(** X10 on that engine: the head found invalid is returned again by a pass
    that gets no block *)
Lemma idle_pass_returns_verified_head_again_witness :
  let c := Script.at_head Script.invalid_once in
  let c1 := snd (after_pass Sim.to_hex false (BlockId.mk 100 1100) c) in
  let returned_height :=
    match fst (forward_and_insert_blocks 5 c1) with
    | Ret new_height => new_height
    | _ => BlockId.mk 0 0
    end in
  returned_height = BlockId.mk 100 1100.
Proof.
  cbv zeta.
  set (c := Script.at_head Script.invalid_once).
  set (c1 := snd (after_pass Sim.to_hex false (BlockId.mk 100 1100) c)).
  set (returned_height := match fst (forward_and_insert_blocks 5 c1) with
                          | Ret new_height => new_height
                          | _ => BlockId.mk 0 0
                          end).
  assert (Ev : after_pass Sim.to_hex false (BlockId.mk 100 1100) c = (Ret false, c1))
    by reflexivity.
  assert (Ef : forward_and_insert_blocks 5 c1 =
               (Ret returned_height, snd (forward_and_insert_blocks 5 c1)))
    by reflexivity.
  assert (Hno : forall ps,
             ~ In (EvInsertBlocks ps) (calls_since c1 (snd (forward_and_insert_blocks 5 c1)))).
  { intros ps Hin. vm_compute in Hin.
    repeat (destruct Hin as [Hin | Hin]; [discriminate Hin|]). exact Hin. }
  exact (idle_pass_returns_verified_head_again Sim.to_hex false 5 c
           (BlockId.mk 100 1100) c1 returned_height _ eq_refl Ev Ef Hno).
Defined.

(** X11 on the run of [stop_in_wait_run] *)
Lemma driver_returns_only_on_stop_witness :
  is_stopping (world (snd (execution_loop Sim.to_hex 5 (start Scenario.stop_in_wait)))) = true.
Proof.
  assert (E : execution_loop Sim.to_hex 5 (start Scenario.stop_in_wait) =
              (Ret tt, snd (execution_loop Sim.to_hex 5 (start Scenario.stop_in_wait))))
    by reflexivity.
  exact (driver_returns_only_on_stop Sim.to_hex 5 _ _ E).
Defined.

(** X12 on a driver that is asked to stop before its first turn *)
Lemma startup_hands_headers_to_exchange_witness :
  execution_loop Sim.to_hex 5 (start Scenario.stopping) =
    (Ret tt, mkConfig new_PoWSync Scenario.stopping
                      [EvGetLastHeaders 65536; EvInitialState [Sim.header 100]]).
Proof.
  destruct (startup_hands_headers_to_exchange Sim.to_hex 5 Scenario.stopping) as (_ & H).
  apply H; [reflexivity | discriminate].
Defined.

(** X18 on a turn whose forward pass ends at the head of block 100 *)
Lemma forward_turn_validates_view_head_witness :
  let c := Sim.config Scenario.stop_in_wait true in
  let r := execution_body Sim.to_hex 5 false c in
  1100 = head_hash (chain_fork_view_ (self (snd r))) /\
  head_height (chain_fork_view_ (self (snd r))) <> 0.
Proof.
  apply (forward_turn_validates_view_head Sim.to_hex 5
           (Sim.config Scenario.stop_in_wait true) 1100).
  vm_compute. do 4 right. left. reflexivity.
Defined.

(** the run that takes one batch, under the watches *)
Example one_batch_run_under_watch :
  let t := trace (snd (execution_loop Sim.to_hex 5 (start Scenario.one_batch))) in
  downloads_bracketed t = true /\
  still_downloading t = false /\
  updates_answer_validations t = true /\
  count is_last_fork_choice t = 1%nat /\
  announced_flags t = [true; true; true].
Proof. vm_compute. repeat split. Qed.

(** the watches do tell a driver that would validate while downloading, or
    move the fork choice unasked *)
Example watches_tell :
  downloads_bracketed
    [EvDownloadBlocks 0 kByAnnouncements; EvValidateChain 1; EvStopDownloading] = false /\
  downloads_bracketed [EvStopDownloading] = false /\
  updates_answer_validations [EvUpdateForkChoice 1] = false /\
  updates_answer_validations
    [EvValidateChain 1; EvUpdateForkChoice 1; EvUpdateForkChoice 1] = false.
Proof. repeat split. Qed.
